(** * Release-notes block synthesis: a shallow embedding of [src/gren.js]

    The development follows the source file top to bottom: the values the
    program manipulates, the host and library functions it calls, then one
    definition per source function, and finally the properties of the
    release and changelog pipelines. *)

From Stdlib Require Import String Ascii ZArith List Lia Permutation Sorted Bool.
From Stdlib Require Import DecimalString.
From stdpp Require Import gmap strings.
Import ListNotations.
Open Scope string_scope.
Open Scope list_scope.
Open Scope Z_scope.

(** ** JavaScript values and built-ins used by the source *)

Module JS.

(** [String(v)] for a string that may be [undefined]; this is what [+]
    does to an undefined operand of a concatenation. *)
Definition str (v : option string) : string :=
  match v with Some s => s | None => "undefined" end.

(** Truthiness of a string: every string but the empty one. *)
Definition truthy (s : string) : bool := negb (s =? "")%string.

(** Truthiness of a string that may be [undefined]. *)
Definition truthy_opt (v : option string) : bool :=
  match v with Some s => truthy s | None => false end.

(** Truthiness of a number or [null]: [null] and [0] are falsy. *)
Definition truthy_id (v : option Z) : bool :=
  match v with Some n => negb (n =? 0) | None => false end.

(** [arr.indexOf(x) !== -1] on an array of strings. *)
Definition includes (x : string) (arr : list string) : bool :=
  existsb (String.eqb x) arr.

(** [arr.join(sep)] on an array of strings. *)
Definition join (sep : string) (arr : list string) : string :=
  String.concat sep arr.

(** [arr.slice(0, -1)]: everything but the last element. *)
Definition slice_0_m1 {A} (arr : list A) : list A := removelast arr.

(** [arr.slice(i, i + n)]. *)
Definition slice {A} (i n : nat) (arr : list A) : list A :=
  firstn n (skipn i arr).

(** [arr.filter(Boolean)] on an array of objects and [undefined]s. *)
Definition compact {A} (arr : list (option A)) : list A :=
  flat_map (fun v => match v with Some a => [a] | None => [] end) arr.

Definition lower (c : ascii) : ascii :=
  let n := nat_of_ascii c in
  if ((65 <=? n) && (n <=? 90))%nat then ascii_of_nat (n + 32) else c.

Fixpoint lowercase (s : string) : string :=
  match s with
  | EmptyString => EmptyString
  | String c r => String (lower c) (lowercase r)
  end.

(** [s.match(/^merge/i)] seen as a boolean: the string starts with
    "merge" in any mix of cases. *)
Definition match_merge (s : string) : bool :=
  String.prefix "merge" (lowercase s).

(** [s.replace(pat, by)] with a string pattern: the first occurrence
    only.  (Replacement patterns starting with a dollar sign are not
    interpreted here.) *)
Fixpoint replace_first (pat by_ s : string) : string :=
  if String.prefix pat s then by_ +:+ substring (String.length pat) (String.length s) s
  else match s with
       | EmptyString => EmptyString
       | String c r => String c (replace_first pat by_ r)
       end.

(** Decimal rendering of an array length and of an integer. *)
Definition of_nat (n : nat) : string :=
  DecimalString.NilZero.string_of_uint (Nat.to_uint n).

Definition of_Z (n : Z) : string :=
  DecimalString.NilZero.string_of_int (Z.to_int n).

(** The line feed the source writes as a backslash followed by n. *)
Definition nl : string := String (ascii_of_nat 10) EmptyString.

(** [Array.prototype.sort] for a consistent comparator [cmp a b], negative
    when [a] goes first: a stable insertion sort.  [sort_insert] puts [x],
    which stood before every element of [l], in front of the first element
    that does not go strictly before it. *)
Fixpoint sort_insert {A} (cmp : A -> A -> Z) (x : A) (l : list A) : list A :=
  match l with
  | [] => [x]
  | y :: r => if cmp y x <? 0 then y :: sort_insert cmp x r else x :: l
  end.

Fixpoint sort {A} (cmp : A -> A -> Z) (l : list A) : list A :=
  match l with
  | [] => []
  | x :: r => sort_insert cmp x (sort cmp r)
  end.

End JS.

(** ** Outcomes: a value, or what was thrown (a rejected promise) *)

Inductive Outcome (E A : Type) : Type :=
| Resolved (a : A)
| Rejected (e : E).
Arguments Resolved {E A} a.
Arguments Rejected {E A} e.

Definition obind {E A B} (o : Outcome E A) (k : A -> Outcome E B) : Outcome E B :=
  match o with
  | Resolved a => k a
  | Rejected e => Rejected e
  end.

(** [arr.map(f)] with a callback that may throw: the first throw wins. *)
Fixpoint omap {E A B} (f : A -> Outcome E B) (l : list A) : Outcome E (list B) :=
  match l with
  | [] => Resolved []
  | x :: r => obind (f x) (fun y => obind (omap f r) (fun ys => Resolved (y :: ys)))
  end.

(** [arr.filter(f)] with a callback that may throw. *)
Fixpoint ofilter {E A} (f : A -> Outcome E bool) (l : list A) : Outcome E (list A) :=
  match l with
  | [] => Resolved []
  | x :: r =>
      obind (f x) (fun b =>
      obind (ofilter f r) (fun ys => Resolved (if b then x :: ys else ys)))
  end.


(** ** The data model *)

Record Tag := { tag_name : string; tag_sha : string }.

Record Label := { label_name : string }.

Record Milestone := { milestone_title : string }.

Record Issue := {
  issue_number : Z;
  issue_title : string;
  issue_html_url : string;
  issue_labels : list Label;
  issue_milestone : option Milestone;
  issue_pull_request : bool;
  issue_closed_at : Z
}.

(** A release as the API lists it. *)
Record Release := {
  release_id : Z;
  release_tag_name : string;
  release_name : string;
  release_published_at : Z;
  release_body : string
}.

(** One endpoint of a range: [{id, name, date}] as [getTagDates] builds it.
    [body] is the property [getIssueBlocks] reads on the newer endpoint;
    it is [None] when the object has no such property. *)
Record DatedPoint := {
  point_id : option Z;
  point_name : option string;
  point_date : Z;
  point_body : option string
}.

(** A range is the two-element array [sortedReleaseDates.slice(i, i + 2)]. *)
Definition Range := list DatedPoint.

Record Block := {
  block_id : option Z;
  block_name : string;
  block_release : option string;
  block_published_at : Z;
  block_body : string
}.

Record ReleaseOptions := {
  ro_tag_name : option string;
  ro_name : string;
  ro_body : string;
  ro_draft : bool;
  ro_prerelease : bool
}.

Record Templates := {
  tpl_commit : string;
  tpl_label : string;
  tpl_issue : string;
  tpl_group : string;
  tpl_release : string;
  tpl_releaseSeparator : string;
  tpl_changelogTitle : string;
  tpl_noLabel : option string
}.

(** The [groupBy] option: a falsy value, the string ['label'], any other
    value that is not an object, or an object from group names to label
    lists, given as its entries in the order of [Object.keys]. *)
Inductive GroupBy :=
| GroupByFalse
| GroupByLabel
| GroupByInvalid
| GroupByObject (entries : list (string * list string)).

Record Options := {
  opt_tags : list string;
  opt_changelogFilename : string;
  opt_dataSource : string;
  opt_onlyMilestones : bool;
  opt_milestoneMatch : string;
  opt_draft : bool;
  opt_prerelease : bool;
  opt_prefix : string;
  opt_includeMessages : string;
  opt_generate : bool;
  opt_override : bool;
  opt_ignoreLabels : list string;
  opt_ignoreIssuesWith : list string;
  opt_template : Templates;
  opt_groupBy : GroupBy
}.

(** What the program throws, or rejects a promise with.  [Unsupported]
    stands for the places where the source looks a configuration or label
    string up in one of its tables and finds a built-in member instead
    (see [Host]); what happens next is not described. *)
Inductive Thrown :=
| TypeError (what : string)
| ThrownMessage (msg : string)
| ApiError (msg : string)
| ThrownBlocks (blocks : list Block)
| Unsupported (what : string).

Definition Result := Outcome Thrown.

(** ** The host and the modules that are not part of [src/] *)

(** What the program takes from its environment.  [formatDate] is
    [utils.formatDate] and [cwd] is [process.cwd()].  [inherited_object]
    and [inherited_array] tell which property names a fresh object literal,
    respectively a fresh array, already answers through its prototype chain
    (["toString"], ["constructor"], ["length"], ["push"], ...): the source
    indexes such tables with configuration and label strings, and the
    embedding describes those lookups for the other names only. *)
Record Host := {
  formatDate : Z -> string;
  cwd : string;
  inherited_object : string -> bool;
  inherited_array : string -> bool
}.

Module template.

(** Modelled from the spec: the placeholder of a key, as [template.generate]
    of [./template] (not under [src/]) looks for it. *)
Definition placeholder (key : string) : string := "{{" +:+ key +:+ "}}".

(** Modelled from the spec: a step of [template.generate].  The first
    entry of the context whose placeholder starts the text. *)
Fixpoint placeholder_at (context : list (string * string)) (t : string)
  : option (string * string) :=
  match context with
  | [] => None
  | (key, value) :: rest =>
      if String.prefix (placeholder key) t then Some (key, value)
      else placeholder_at rest t
  end.

(** Modelled from the spec: the pass of [template.generate] over the
    template, left to right; [skip] counts the characters of a placeholder
    that was just replaced and are still to be dropped. *)
Fixpoint generate_from (context : list (string * string)) (skip : nat) (t : string)
  : string :=
  match t with
  | EmptyString => EmptyString
  | String c rest =>
      match skip with
      | S k => generate_from context k rest
      | O =>
          match placeholder_at context t with
          | Some (key, value) =>
              value +:+ generate_from context (String.length (placeholder key) - 1) rest
          | None => String c (generate_from context 0 rest)
          end
      end
  end.

(** Modelled from the spec: [template.generate] of [./template], which is
    not under [src/].  Every literal occurrence of a context key between
    double braces is replaced by its value, in a single pass: inserted
    values are not expanded again and unknown placeholders stay as they
    are. *)
Definition generate (context : list (string * string)) (t : string) : string :=
  generate_from context 0 t.

End template.

Module utils.

(** Modelled from the spec: [utils.isInRange] of [./utils], which is not
    under [src/].  Membership of a date in a range is inclusive at both
    ends. *)
Definition isInRange (value from_ to_ : Z) : bool :=
  (from_ <=? value) && (value <=? to_).

(** Modelled from the spec: insertion of an entry by key, for
    [utils.sortObject]. *)
Fixpoint sortObject_insert {V} (e : string * V) (l : list (string * V))
  : list (string * V) :=
  match l with
  | [] => [e]
  | e' :: r => if String.ltb (fst e) (fst e') then e :: l else e' :: sortObject_insert e r
  end.

(** Modelled from the spec: [utils.sortObject] of [./utils], which is not
    under [src/].  The entries of the object ordered by key,
    lexicographically. *)
Fixpoint sortObject {V} (entries : list (string * V)) : list (string * V) :=
  match entries with
  | [] => []
  | e :: r => sortObject_insert e (sortObject r)
  end.

End utils.

(** Objects used as ordered maps: the entries in the order of
    [Object.keys]. *)
Module Obj.

Fixpoint get {V} (o : list (string * V)) (k : string) : option V :=
  match o with
  | [] => None
  | (k', v) :: r => if (k' =? k)%string then Some v else get r k
  end.

(** [o[k] = v] on an own property: an existing key keeps its place, a new
    one goes last. *)
Fixpoint set {V} (o : list (string * V)) (k : string) (v : V) : list (string * V) :=
  match o with
  | [] => [(k, v)]
  | (k', v') :: r => if (k' =? k)%string then (k', v) :: r else (k', v') :: set r k v
  end.

(** [o[k] = v] on an object literal [o]: ["__proto__"] is the accessor of
    the prototype, and assigning an array to it sets the prototype instead
    of creating a property. *)
Definition assign {V} (o : list (string * V)) (k : string) (v : V) : list (string * V) :=
  if (k =? "__proto__")%string then o else set o k v.

Definition keys {V} (o : list (string * V)) : list string := map fst o.

End Obj.

(** ** The remote repository and the world the program acts on *)

(** The calls the program makes on the repository client. *)
Inductive ApiCall :=
| ListReleases
| ListTags
| GetCommit (sha : string)
| ListCommits (since until : Z)
| ListIssues (since : Z)
| CreateRelease (releaseOptions : ReleaseOptions)
| UpdateRelease (releaseId : Z) (releaseOptions : ReleaseOptions).

(** What the client answers: [response.data], or the rejection that the
    program lets through unchanged. *)
Record Api := {
  api_listReleases : Result (list Release);
  api_listTags : Result (list Tag);
  api_getCommit : string -> Result Z;
  api_listCommits : Z -> Z -> Result (list string);
  api_listIssues : Z -> Result (list Issue);
  api_createRelease : ReleaseOptions -> Result Release;
  api_updateRelease : Z -> ReleaseOptions -> Result Release
}.

(** The [gren] object: its options and its repository client
    ([gren.repo] and [gren.issues]). *)
Record Gren := {
  options : Options;
  repo : Api
}.

(** Everything the program can change: the files, the calls received by
    the client (latest last), the lines that [gren.js] itself writes to the
    console (latest last, without the colours of [chalk]; the task headings
    and spinners of [./utils] are not recorded) and the rejected promises
    that nothing is chained on. *)
Record World := {
  files : gmap string string;
  calls : list ApiCall;
  console : list string;
  dropped : list Thrown
}.

(** A promise-returning function: it runs in a world and resolves or
    rejects, leaving a new world. *)
Definition Promise (A : Type) : Type := World -> Result A * World.

Definition resolve {A} (a : A) : Promise A := fun w => (Resolved a, w).

Definition reject {A} (e : Thrown) : Promise A := fun w => (Rejected e, w).

(** [p.then(k)]: a rejection of [p] skips [k]; a throw inside [k] is a
    rejection of the result. *)
Definition then_ {A B} (p : Promise A) (k : A -> Promise B) : Promise B :=
  fun w =>
    match p w with
    | (Resolved a, w') => k a w'
    | (Rejected e, w') => (Rejected e, w')
    end.

Notation "x <- p ;; k" := (then_ p (fun x => k))
  (at level 100, p at next level, right associativity).

(** A synchronous value or throw, as a promise. *)
Definition settle {A} (o : Result A) : Promise A := fun w => (o, w).

Definition call {A} (c : ApiCall) (answer : Result A) : Promise A :=
  fun w =>
    (answer, {| files := files w; calls := calls w ++ [c];
                console := console w; dropped := dropped w |}).

Definition print (line : string) : Promise unit :=
  fun w =>
    (Resolved tt, {| files := files w; calls := calls w;
                     console := console w ++ [line]; dropped := dropped w |}).

(** A rejected promise that is created and not returned. *)
Definition drop_rejection (e : Thrown) : Promise unit :=
  fun w =>
    (Resolved tt, {| files := files w; calls := calls w;
                     console := console w; dropped := dropped w ++ [e] |}).

Definition existsSync (path : string) (w : World) : bool :=
  bool_decide (is_Some (files w !! path)).

Definition writeFileSync (path content : string) : Promise unit :=
  fun w =>
    (Resolved tt, {| files := <[path := content]> (files w); calls := calls w;
                     console := console w; dropped := dropped w |}).

(** [arr.map(f)] for a callback that starts a promise.  The callback
    either throws, which stops the map at once, or starts a promise; the
    started promises run in order and the list of their outcomes is
    returned. *)
Fixpoint start_map {A B} (f : A -> Result (Promise B)) (l : list A) (w : World)
  : Result (list (Result B)) * World :=
  match l with
  | [] => (Resolved [], w)
  | x :: r =>
      match f x with
      | Rejected e => (Rejected e, w)
      | Resolved p =>
          let '(ox, w1) := p w in
          let '(rest, w2) := start_map f r w1 in
          (obind rest (fun os => Resolved (ox :: os)), w2)
      end
  end.

(** [Promise.all(arr.map(f))]: the list of values, or the rejection of the
    first element that rejects. *)
Definition all_map {A B} (f : A -> Result (Promise B)) (l : list A) : Promise (list B) :=
  fun w =>
    let '(started, w') := start_map f l w in
    (obind started (omap (fun o => o)), w').

(** ** The program, function by function *)

(** Objects that [templateReleases] can render: releases listed by the API
    and freshly generated blocks both have [name], [published_at] and
    [body]. *)
Class ReleaseLike (A : Type) := {
  rl_name : A -> string;
  rl_published_at : A -> Z;
  rl_body : A -> string
}.

#[export] Instance Release_ReleaseLike : ReleaseLike Release := {
  rl_name := release_name;
  rl_published_at := release_published_at;
  rl_body := release_body
}.

#[export] Instance Block_ReleaseLike : ReleaseLike Block := {
  rl_name := block_name;
  rl_published_at := block_published_at;
  rl_body := block_body
}.

(** What [getSelectedTags] returns: [false], or an array of tags. *)
Inductive Selection :=
| NoSelection
| Selected (tags : list Tag).

(** [{tag, releaseId}] of [getLastTags]. *)
Record TagInfo := { ti_tag : Tag; ti_releaseId : option Z }.

Section Program.

Variable host : Host.

Definition editRelease (gren : Gren) (releaseId : Z) (releaseOptions : ReleaseOptions)
  : Promise Release :=
  release <- call (UpdateRelease releaseId releaseOptions)
                  (api_updateRelease (repo gren) releaseId releaseOptions) ;;
  _ <- print (release_name release +:+ " has been successfully updated!") ;;
  resolve release.

Definition createRelease (gren : Gren) (releaseOptions : ReleaseOptions) : Promise Release :=
  release <- call (CreateRelease releaseOptions)
                  (api_createRelease (repo gren) releaseOptions) ;;
  _ <- print (release_name release +:+ " has been successfully created!") ;;
  resolve release.

(** [prepareRelease] resolves with the release, or with [undefined] when it
    skips the block. *)
Definition prepareRelease (gren : Gren) (block : Block) : Promise (option Release) :=
  let releaseOptions :=
    {| ro_tag_name := block_release block;
       ro_name := block_name block;
       ro_body := block_body block;
       ro_draft := opt_draft (options gren);
       ro_prerelease := opt_prerelease (options gren) |} in
  match block_id block with
  | Some id =>
      if JS.truthy_id (Some id) then
        if negb (opt_override (options gren)) then
          _ <- print ("Skipping " +:+ JS.str (block_release block)
                      +:+ " (use --override to replace it)") ;;
          resolve None
        else
          release <- editRelease gren id releaseOptions ;;
          resolve (Some release)
      else
        release <- createRelease gren releaseOptions ;;
        resolve (Some release)
  | None =>
      release <- createRelease gren releaseOptions ;;
      resolve (Some release)
  end.

(** The callback of [tags.filter] in [getSelectedTags], with the array
    [selectedTags] it reads and extends, from position [index] on. *)
Fixpoint getSelectedTags_filter (tags : list Tag) (index : nat) (rest : list Tag)
  (selectedTags : list string) : list Tag :=
  match rest with
  | [] => []
  | tag :: rest' =>
      let isSelectedTag := JS.includes (tag_name tag) selectedTags in
      let selectedTags' :=
        if isSelectedTag && (length selectedTags =? 1)%nat then
          match tags !! (index + 1)%nat with
          | Some next => selectedTags ++ [tag_name next]
          | None => selectedTags
          end
        else selectedTags in
      (if isSelectedTag then [tag] else [])
        ++ getSelectedTags_filter tags (S index) rest' selectedTags'
  end.

Definition getSelectedTags (optionTags : list string) (tags : list Tag) : Selection :=
  if JS.includes "all" optionTags then Selected tags
  else if (length optionTags =? 0)%nat then NoSelection
  else Selected (JS.slice 0 2 (getSelectedTags_filter tags 0 tags optionTags)).

(** [releases] is the list of releases; the caller passes [false] for an
    empty list, in which no release is found either. *)
Definition getLastTags (gren : Gren) (releases : list Release) : Promise (list TagInfo) :=
  tags <- call ListTags (api_listTags (repo gren)) ;;
  let chosen :=
    match getSelectedTags (opt_tags (options gren)) tags with
    | Selected l => l
    | NoSelection => JS.compact [tags !! 0%nat; tags !! 1%nat]
    end in
  let filteredTags :=
    map (fun tag =>
           let tagRelease :=
             head (List.filter (fun release =>
                                  (release_tag_name release =? tag_name tag)%string)
                               releases) in
           let releaseId :=
             match tagRelease with
             | Some r => Some (release_id r)
             | None => None
             end in
           {| ti_tag := tag; ti_releaseId := releaseId |})
        chosen in
  _ <- print ("Tags found: "
              +:+ JS.join ", " (map (fun t => tag_name (ti_tag t)) filteredTags)) ;;
  resolve filteredTags.

(** [Promise.all(getTagDates(gren, tags))]. *)
Definition getTagDates (gren : Gren) (tags : list TagInfo) : Promise (list DatedPoint) :=
  all_map (fun tag =>
             Resolved (
               date <- call (GetCommit (tag_sha (ti_tag tag)))
                            (api_getCommit (repo gren) (tag_sha (ti_tag tag))) ;;
               resolve {| point_id := ti_releaseId tag;
                          point_name := Some (tag_name (ti_tag tag));
                          point_date := date;
                          point_body := None |}))
          tags.

Definition getListReleases (gren : Gren) : Promise (list Release) :=
  releases <- call ListReleases (api_listReleases (repo gren)) ;;
  _ <- print (JS.of_nat (length releases) +:+ " releases found" +:+ JS.nl) ;;
  resolve releases.

Definition templateCommits (gren : Gren) (message : option string) : string :=
  template.generate
    [("message", match message with Some m => m | None => "null" end)]
    (tpl_commit (opt_template (options gren))).

(** The one write the program makes to an issue: an issue without labels
    gets the [noLabel] placeholder as its only label, when one is
    configured.  [templateLabels], [groupByLabel] and [groupBy] all start
    with this same guarded push and read the labels afterwards, so each of
    them reads the labels of [pushNoLabel gren issue], whether or not the
    issue object was already updated by an earlier call. *)
Definition pushNoLabel (gren : Gren) (issue : Issue) : Issue :=
  if (length (issue_labels issue) =? 0)%nat
     && JS.truthy_opt (tpl_noLabel (opt_template (options gren)))
  then {| issue_number := issue_number issue;
          issue_title := issue_title issue;
          issue_html_url := issue_html_url issue;
          issue_labels := [ {| label_name := JS.str (tpl_noLabel (opt_template (options gren))) |} ];
          issue_milestone := issue_milestone issue;
          issue_pull_request := issue_pull_request issue;
          issue_closed_at := issue_closed_at issue |}
  else issue.

Definition templateLabels (gren : Gren) (issue : Issue) : string :=
  let issue := pushNoLabel gren issue in
  JS.join ""
    (map (fun label =>
            template.generate [("label", label_name label)]
                              (tpl_label (opt_template (options gren))))
         (List.filter (fun label =>
                         negb (JS.includes (label_name label)
                                           (opt_ignoreLabels (options gren))))
                      (issue_labels issue))).

Definition templateReleases {A} `{ReleaseLike A} (gren : Gren) (releases : list A) : string :=
  JS.join (tpl_releaseSeparator (opt_template (options gren)))
    (map (fun release =>
            template.generate
              [("release", rl_name release);
               ("date", formatDate host (rl_published_at release));
               ("body", rl_body release)]
              (tpl_release (opt_template (options gren))))
         releases).

Definition templateIssue (gren : Gren) (issue : Issue) : string :=
  template.generate
    [("labels", templateLabels gren issue);
     ("name", issue_title issue);
     ("text", "#" +:+ JS.of_Z (issue_number issue));
     ("url", issue_html_url issue)]
    (tpl_issue (opt_template (options gren))).

(** [body] is the array returned by [groupBy], or [false] ([None]) when the
    grouping was not run; [rangeBody] is [range[0].body]. *)
Definition templateIssueBody (body : option (list string)) (rangeBody : option string)
  : string :=
  (match body with
   | Some ((_ :: _) as lines) => JS.join JS.nl lines
   | _ =>
       if JS.truthy_opt rangeBody then JS.str rangeBody
       else "*No changelog for this release.*"
   end) +:+ JS.nl.

Definition templateGroups (gren : Gren) (groups : list (string * list string))
  : list string :=
  map (fun group =>
         let heading :=
           template.generate [("heading", fst group)]
                             (tpl_group (opt_template (options gren))) in
         let body := JS.join JS.nl (snd group) in
         heading +:+ JS.nl +:+ body)
      groups.

(** The three entries of [filterMap]; a message is a string or the [null]
    that [generateCommitsBody] pushes. *)
Definition filterMap_merges (message : option string) : Result bool :=
  match message with
  | Some m => Resolved (JS.match_merge m)
  | None => Rejected (TypeError "Cannot read property 'match' of null")
  end.

Definition filterMap_commits (message : option string) : Result bool :=
  match message with
  | Some m => Resolved (negb (JS.match_merge m))
  | None => Rejected (TypeError "Cannot read property 'match' of null")
  end.

Definition filterMap_all (message : option string) : Result bool := Resolved true.

Definition filterMap (key : string) : option (option string -> Result bool) :=
  if (key =? "merges")%string then Some filterMap_merges
  else if (key =? "commits")%string then Some filterMap_commits
  else if (key =? "all")%string then Some filterMap_all
  else None.

(** The callback of [filter] in [generateCommitsBody]. *)
Definition generateCommitsBody_filter (gren : Gren) (message : option string) : Result bool :=
  let messageType := opt_includeMessages (options gren) in
  match filterMap messageType with
  | Some f => f message
  | None =>
      if inherited_object host messageType
      then Rejected (Unsupported "filterMap[messageType] found on the prototype")
      else filterMap_commits message
  end.

Definition generateCommitsBody (gren : Gren) (messages : list string) : Result string :=
  let messages :=
    if (length messages =? 1)%nat then map Some messages ++ [None]
    else map Some messages in
  obind (ofilter (generateCommitsBody_filter gren) (JS.slice_0_m1 messages))
        (fun kept => Resolved (JS.join JS.nl (map (templateCommits gren) kept))).

(** The client answers with commit objects; [commitMessages] keeps their
    messages, and [api_listCommits] gives these directly. *)
Definition getCommitsBetweenTwo (gren : Gren) (since until : Z) : Promise (list string) :=
  _ <- print ("Get commits between " +:+ formatDate host since +:+ " and "
              +:+ formatDate host until +:+ JS.nl) ;;
  call (ListCommits since until) (api_listCommits (repo gren) since until).

Definition getCommitBlocks (gren : Gren) (releaseRanges : list Range) : Promise (list Block) :=
  _ <- print (JS.nl +:+ "Creating the body blocks from commits:") ;;
  all_map (fun range : Range =>
             match range !! 1%nat, range !! 0%nat with
             | Some older, Some newer =>
                 Resolved (
                   commits <- getCommitsBetweenTwo gren (point_date older) (point_date newer) ;;
                   body <- settle (generateCommitsBody gren commits) ;;
                   resolve {| block_id := point_id newer;
                              block_name := opt_prefix (options gren) +:+ JS.str (point_name newer);
                              block_release := point_name newer;
                              block_published_at := point_date newer;
                              block_body := body +:+ JS.nl |})
             | _, _ => Rejected (TypeError "Cannot read property 'date' of undefined")
             end)
          releaseRanges.

Definition compareIssueLabels (ignoreLabels : list string) (labels : list Label) : bool :=
  fold_left (fun carry ignoredLabel =>
               carry && negb (JS.includes ignoredLabel (map label_name labels)))
            ignoreLabels true.

(** [&&] binds tighter than [||]: the last conjunct is
    [!(onlyMilestones || (dataSource === 'milestones' && !issue.milestone))]. *)
Definition filterIssue (gren : Gren) (issue : Issue) : bool :=
  negb (issue_pull_request issue)
  && compareIssueLabels (opt_ignoreIssuesWith (options gren)) (issue_labels issue)
  && negb (opt_onlyMilestones (options gren)
           || ((opt_dataSource (options gren) =? "milestones")%string
               && negb (bool_decide (is_Some (issue_milestone issue))))).

Definition getClosedIssues (gren : Gren) (releaseRanges : list Range) : Promise (list Issue) :=
  match releaseRanges !! (length releaseRanges - 1)%nat with
  | None => reject (TypeError "Cannot read property '1' of undefined")
  | Some range =>
      match range !! 1%nat with
      | None => reject (TypeError "Cannot read property 'date' of undefined")
      | Some older =>
          data <- call (ListIssues (point_date older))
                       (api_listIssues (repo gren) (point_date older)) ;;
          let filteredIssues := List.filter (filterIssue gren) data in
          _ <- print (JS.of_nat (length filteredIssues) +:+ " issues found" +:+ JS.nl) ;;
          resolve filteredIssues
      end
  end.

(** [labelName] of [groupByLabel]: the name of [issue.labels[0]] after the
    guarded push. *)
Definition groupByLabel_key (gren : Gren) (issue : Issue) : Result string :=
  match issue_labels (pushNoLabel gren issue) !! 0%nat with
  | Some label => Resolved (label_name label)
  | None => Rejected (TypeError "Cannot read property 'name' of undefined")
  end.

(** One turn of the [forEach] of [groupByLabel]; [groups] holds the
    properties added to the array so far. *)
Definition groupByLabel_step (gren : Gren) (groups : list (string * list string))
  (issue : Issue) : Result (list (string * list string)) :=
  obind (groupByLabel_key gren issue) (fun labelName =>
    match Obj.get groups labelName with
    | Some items =>
        Resolved (Obj.set groups labelName (items ++ [templateIssue gren issue]))
    | None =>
        if inherited_array host labelName
        then Rejected (Unsupported "groups[labelName] found on the prototype")
        else Resolved (Obj.set groups labelName [templateIssue gren issue])
    end).

Fixpoint groupByLabel_forEach (gren : Gren) (groups : list (string * list string))
  (issues : list Issue) : Result (list (string * list string)) :=
  match issues with
  | [] => Resolved groups
  | issue :: rest =>
      obind (groupByLabel_step gren groups issue)
            (fun groups' => groupByLabel_forEach gren groups' rest)
  end.

Definition groupByLabel (gren : Gren) (issues : list Issue) : Result (list string) :=
  obind (groupByLabel_forEach gren [] issues)
        (fun groups => Resolved (templateGroups gren (utils.sortObject groups))).

(** The callback of [issues.filter] in [groupBy], for one group. *)
Definition groupBy_filter (gren : Gren) (allLabels : list string) (group : string * list string)
  (issue : Issue) : bool :=
  let issue := pushNoLabel gren issue in
  existsb (fun label =>
             let isOtherLabel :=
               JS.includes "..." (snd group)
               && negb (JS.includes (label_name label) allLabels) in
             JS.includes (label_name label) (snd group) || isOtherLabel)
          (issue_labels issue).

(** The object [groups] that the second [reduce] of [groupBy] builds. *)
Definition groupBy_groups (gren : Gren) (groupBy : list (string * list string))
  (issues : list Issue) : list (string * list string) :=
  let allLabels := fold_left (fun carry group => carry ++ snd group) groupBy [] in
  fold_left (fun carry group =>
               let groupIssues :=
                 map (templateIssue gren)
                     (List.filter (groupBy_filter gren allLabels group) issues) in
               if (0 <? length groupIssues)%nat
               then Obj.assign carry (fst group) groupIssues
               else carry)
            groupBy [].

Definition groupBy (gren : Gren) (issues : list Issue) : Result (list string) :=
  match opt_groupBy (options gren) with
  | GroupByFalse => Resolved (map (templateIssue gren) issues)
  | GroupByLabel => groupByLabel gren issues
  | GroupByInvalid =>
      Rejected (ThrownMessage
                  "The option for groupBy is invalid, please check the documentation")
  | GroupByObject groupBy =>
      Resolved (templateGroups gren (groupBy_groups gren groupBy issues))
  end.

Definition filterBlockIssue (gren : Gren) (range : Range) (issue : Issue) : Result bool :=
  if (opt_dataSource (options gren) =? "milestones")%string then
    match range !! 0%nat with
    | None => Rejected (TypeError "Cannot read property 'name' of undefined")
    | Some newer =>
        match issue_milestone issue with
        | None => Rejected (TypeError "Cannot read property 'title' of null")
        | Some milestone =>
            Resolved (JS.replace_first "{{tag_name}}" (JS.str (point_name newer))
                                       (opt_milestoneMatch (options gren))
                      =? milestone_title milestone)%string
        end
    end
  else
    match range !! 1%nat, range !! 0%nat with
    | Some older, Some newer =>
        Resolved (utils.isInRange (issue_closed_at issue) (point_date older) (point_date newer))
    | _, _ => Rejected (TypeError "Cannot read property 'date' of undefined")
    end.

(** The callback of [releaseRanges.map] in [getIssueBlocks]. *)
Definition getIssueBlocks_block (gren : Gren) (issues : list Issue) (range : Range)
  : Result Block :=
  obind (ofilter (filterBlockIssue gren range) issues) (fun filteredIssues =>
    match range !! 0%nat with
    | None => Rejected (TypeError "Cannot read property 'body' of undefined")
    | Some newer =>
        obind (if negb (JS.truthy_opt (point_body newer)) || opt_override (options gren)
               then obind (groupBy gren filteredIssues) (fun lines => Resolved (Some lines))
               else Resolved None)
              (fun body =>
                 Resolved {| block_id := point_id newer;
                             block_release := point_name newer;
                             block_name := opt_prefix (options gren) +:+ JS.str (point_name newer);
                             block_published_at := point_date newer;
                             block_body := templateIssueBody body (point_body newer) |})
    end).

Definition getIssueBlocks (gren : Gren) (releaseRanges : list Range) : Promise (list Block) :=
  _ <- print "Creating the body blocks from releases:" ;;
  issues <- getClosedIssues gren releaseRanges ;;
  settle (omap (getIssueBlocks_block gren issues) releaseRanges).

Definition sortReleasesByDate (releaseDates : list DatedPoint) : list DatedPoint :=
  JS.sort (fun release1 release2 => point_date release2 - point_date release1) releaseDates.

(** The point pushed when a single date is known: [{id: 0, date: new Date(0)}]. *)
Definition dateZero_point : DatedPoint :=
  {| point_id := Some 0; point_name := None; point_date := 0; point_body := None |}.

Definition createReleaseRanges (gren : Gren) (releaseDates : list DatedPoint) : list Range :=
  let range := 2%nat in
  let sortedReleaseDates := sortReleasesByDate releaseDates in
  let sortedReleaseDates :=
    if (length sortedReleaseDates =? 1)%nat
    then sortedReleaseDates ++ [dateZero_point]
    else sortedReleaseDates in
  map (fun i => JS.slice i range sortedReleaseDates)
      (seq 0 (length sortedReleaseDates - 1)).

Definition getReleaseBlocks (gren : Gren) : Promise (list Block) :=
  releases <- getListReleases gren ;;
  tags <- getLastTags gren releases ;;
  releaseDates <- getTagDates gren tags ;;
  let dataSource := opt_dataSource (options gren) in
  let releaseRanges := createReleaseRanges gren releaseDates in
  if (dataSource =? "issues")%string then getIssueBlocks gren releaseRanges
  else if (dataSource =? "commits")%string then getCommitBlocks gren releaseRanges
  else if (dataSource =? "milestones")%string then getIssueBlocks gren releaseRanges
  else if inherited_object host dataSource
       then reject (Unsupported "dataSource[gren.options.dataSource] found on the prototype")
       else reject (TypeError "dataSource[gren.options.dataSource] is not a function").

Definition changelogPath (gren : Gren) : string :=
  cwd host +:+ "/" +:+ opt_changelogFilename (options gren).

(** The rejected promise is created and left behind; the function returns
    a resolved one on every path. *)
Definition checkChangelogFile (gren : Gren) : Promise unit :=
  let filePath := changelogPath gren in
  _ <- (fun w =>
          if existsSync filePath w && negb (opt_override (options gren))
          then drop_rejection
                 (ThrownMessage
                    "Looks like there is already a changelog, to override it use --override")
                 w
          else resolve tt w) ;;
  resolve tt.

Definition createChangelog (gren : Gren) (body : string) : Promise unit :=
  let filePath := changelogPath gren in
  _ <- writeFileSync filePath (tpl_changelogTitle (opt_template (options gren)) +:+ body) ;;
  print (JS.nl +:+ "Changelog created!").

(** The callback of the first [then] of [release]: [throw blocks] and,
    after it, the [reduce] that chains one [prepareRelease] per block. *)
Definition release (gren : Gren) : Promise (option Release) :=
  blocks <- getReleaseBlocks gren ;;
  _ <- @reject unit (ThrownBlocks blocks) ;;
  fold_left (fun carry block => _ <- carry ;; prepareRelease gren block)
            blocks (resolve None).

(** The last two [then]s of [changelog], for releases or blocks. *)
Definition changelog_write {A} `{ReleaseLike A} (gren : Gren) (releases : list A)
  : Promise unit :=
  if (length releases =? 0)%nat
  then reject (ThrownMessage
                 "There are no releases, use --generate to create release notes, or run the release command.")
  else createChangelog gren (templateReleases gren releases).

Definition changelog (gren : Gren) : Promise unit :=
  _ <- checkChangelogFile gren ;;
  if opt_generate (options gren)
  then releases <- getReleaseBlocks gren ;; changelog_write gren releases
  else releases <- getListReleases gren ;; changelog_write gren releases.

End Program.

(** ** Reference definitions for the statements *)

(** The adjacent pairs of a list, each as a two-element array. *)
Fixpoint windows {A} (l : list A) : list (list A) :=
  match l with
  | a :: ((b :: _) as r) => [a; b] :: windows r
  | _ => []
  end.

Definition newest_first (l : list DatedPoint) : Prop :=
  Sorted (fun a b => point_date a >= point_date b) l.

(** The commit messages that [generateCommitsBody] considers: all but the
    last one, except that a single message is kept. *)
Definition eligible (messages : list string) : list string :=
  if (length messages =? 1)%nat then messages else removelast messages.

(** What each include-mode keeps. *)
Definition keeps (messageType : string) (message : string) : bool :=
  if (messageType =? "merges")%string then JS.match_merge message
  else if (messageType =? "all")%string then true
  else negb (JS.match_merge message).

(** The labels an issue is grouped by: its own, or the placeholder. *)
Definition labels_of (gren : Gren) (issue : Issue) : list string :=
  map label_name (issue_labels (pushNoLabel gren issue)).

(** The labels named in the groups of a mapping. *)
Definition named_labels (mapping : list (string * list string)) : list string :=
  concat (map snd mapping).

(** The sections of a custom mapping: each group, in order, with the
    issues that [groupBy_filter] selects for it; empty groups left out. *)
Definition sections (gren : Gren) (mapping : list (string * list string))
  (issues : list Issue) : list (string * list string) :=
  flat_map (fun group =>
              match List.filter (groupBy_filter gren (named_labels mapping) group) issues with
              | [] => []
              | members => [(fst group, map (templateIssue gren) members)]
              end)
           mapping.


(** The calls that only read from the repository. *)
Definition reads (c : ApiCall) : bool :=
  match c with
  | CreateRelease _ | UpdateRelease _ _ => false
  | _ => true
  end.

(** A promise that adds nothing but reading calls to the calls received
    by the client. *)
Definition only_reads {A} (p : Promise A) : Prop :=
  forall w, exists new, calls (snd (p w)) = calls w ++ new /\ forallb reads new = true.

(** The world after the client received one more call, and after one more
    line was written to the console. *)
Definition called (c : ApiCall) (w : World) : World :=
  {| files := files w; calls := calls w ++ [c];
     console := console w; dropped := dropped w |}.

Definition printed (line : string) (w : World) : World :=
  {| files := files w; calls := calls w;
     console := console w ++ [line]; dropped := dropped w |}.

(** A promise that leaves the files and the unhandled rejections as they
    are. *)
Definition keeps_files {A} (p : Promise A) : Prop :=
  forall w, files (snd (p w)) = files w /\ dropped (snd (p w)) = dropped w.

(** The two endpoints of a well-formed range, newer first. *)
Definition range_of (endpoints : DatedPoint * DatedPoint) : Range :=
  [fst endpoints; snd endpoints].


(** ** Sample values *)

Module Sample.

Definition host : Host :=
  {| formatDate := fun d => JS.of_Z d;
     cwd := "/repo";
     inherited_object := fun k => JS.includes k ["constructor"; "toString"; "valueOf"; "__proto__"];
     inherited_array := fun k => JS.includes k ["length"; "push"; "constructor"; "__proto__"] |}.

Definition templates_with (noLabel : option string) : Templates :=
  {| tpl_commit := "- {{message}}";
     tpl_label := "[{{label}}]";
     tpl_issue := "- {{labels}} {{name}} {{text}}";
     tpl_group := "#### {{heading}}";
     tpl_release := "## {{release}} ({{date}})" +:+ JS.nl +:+ "{{body}}";
     tpl_releaseSeparator := JS.nl +:+ "---" +:+ JS.nl;
     tpl_changelogTitle := "# Changelog" +:+ JS.nl;
     tpl_noLabel := noLabel |}.

Definition opts_with (dataSource : string) (onlyMilestones override : bool)
  (groupBy : GroupBy) (noLabel : option string) : Options :=
  {| opt_tags := [];
     opt_changelogFilename := "CHANGELOG.md";
     opt_dataSource := dataSource;
     opt_onlyMilestones := onlyMilestones;
     opt_milestoneMatch := "Release {{tag_name}}";
     opt_draft := false;
     opt_prerelease := false;
     opt_prefix := "";
     opt_includeMessages := "commits";
     opt_generate := false;
     opt_override := override;
     opt_ignoreLabels := [];
     opt_ignoreIssuesWith := [];
     opt_template := templates_with noLabel;
     opt_groupBy := groupBy |}.

Definition v1 : Release :=
  {| release_id := 5; release_tag_name := "v1.0.0"; release_name := "v1.0.0";
     release_published_at := 1000; release_body := "First release" |}.

Definition api : Api :=
  {| api_listReleases := Resolved [v1];
     api_listTags := Resolved [ {| tag_name := "v1.0.0"; tag_sha := "abc" |} ];
     api_getCommit := fun _ => Resolved 1000;
     api_listCommits := fun _ _ => Resolved ["fix: a"; "merge: b"; "feat: c"];
     api_listIssues := fun _ => Resolved [];
     api_createRelease := fun _ => Resolved v1;
     api_updateRelease := fun _ _ => Resolved v1 |}.

Definition gren_with (dataSource : string) (onlyMilestones override : bool)
  (groupBy : GroupBy) (noLabel : option string) : Gren :=
  {| options := opts_with dataSource onlyMilestones override groupBy noLabel;
     repo := api |}.

(** The defaults: issues as the data source, no grouping, no override. *)
Definition gren : Gren := gren_with "issues" false false GroupByFalse None.

Definition point (id : option Z) (name : string) (date : Z) : DatedPoint :=
  {| point_id := id; point_name := Some name; point_date := date; point_body := None |}.

Definition issue (number : Z) (labels : list string) (milestone : option string) : Issue :=
  {| issue_number := number;
     issue_title := "An issue";
     issue_html_url := "https://example.org/issues";
     issue_labels := map (fun l => {| label_name := l |}) labels;
     issue_milestone := option_map (fun t => {| milestone_title := t |}) milestone;
     issue_pull_request := false;
     issue_closed_at := 500 |}.

Definition world : World :=
  {| files := ∅; calls := []; console := []; dropped := [] |}.

(** A world in which the changelog file is already there. *)
Definition world_with_changelog : World :=
  {| files := {[ "/repo/CHANGELOG.md" := "An earlier changelog" ]};
     calls := []; console := []; dropped := [] |}.

(** A client whose [listReleases] fails, and one that knows three tags and
    two releases. *)
Definition api_down : Api :=
  {| api_listReleases := Rejected (ApiError "503");
     api_listTags := api_listTags api;
     api_getCommit := api_getCommit api;
     api_listCommits := api_listCommits api;
     api_listIssues := api_listIssues api;
     api_createRelease := api_createRelease api;
     api_updateRelease := api_updateRelease api |}.

Definition v2 : Release :=
  {| release_id := 8; release_tag_name := "v2.0.0"; release_name := "v2.0.0";
     release_published_at := 2000; release_body := "Second release" |}.

Definition tags3 : list Tag :=
  [ {| tag_name := "v3.0.0"; tag_sha := "c3" |};
    {| tag_name := "v2.0.0"; tag_sha := "c2" |};
    {| tag_name := "v1.0.0"; tag_sha := "c1" |} ].

Definition api3 : Api :=
  {| api_listReleases := Resolved [v2; v1];
     api_listTags := Resolved tags3;
     api_getCommit := fun sha =>
       if (sha =? "c3")%string then Resolved 3000
       else if (sha =? "c2")%string then Resolved 2000
       else if (sha =? "c1")%string then Resolved 1000
       else Rejected (ApiError "404");
     api_listCommits := fun since until =>
       if until =? 3000 then Rejected (ApiError "500") else Resolved ["fix: a"; "feat: c"];
     api_listIssues := fun _ =>
       Resolved [issue 1 ["bug"] (Some "Release v3.0.0");
                 issue 2 ["docs"] None;
                 issue 3 [] (Some "Release v2.0.0")];
     api_createRelease := fun _ => Resolved v1;
     api_updateRelease := fun _ _ => Resolved v1 |}.

(** [gren] with other options and another client. *)
Definition gren_on (client : Api) (o : Options) : Gren := {| options := o; repo := client |}.

Definition opts_tags (requested : list string) (dataSource : string) : Options :=
  {| opt_tags := requested;
     opt_changelogFilename := "CHANGELOG.md";
     opt_dataSource := dataSource;
     opt_onlyMilestones := false;
     opt_milestoneMatch := "Release {{tag_name}}";
     opt_draft := false;
     opt_prerelease := false;
     opt_prefix := "Release ";
     opt_includeMessages := "commits";
     opt_generate := false;
     opt_override := false;
     opt_ignoreLabels := [];
     opt_ignoreIssuesWith := [];
     opt_template := templates_with None;
     opt_groupBy := GroupByFalse |}.

End Sample.

(** * Properties *)

(** ** The template engine on the examples of its contract *)

Example generate_known_key :
  template.generate [("name", "X")] "Hello {{name}}!" = "Hello X!".
Proof. reflexivity. Qed.

Example generate_missing_key : template.generate [] "{{missing}}" = "{{missing}}".
Proof. reflexivity. Qed.

Example generate_single_pass :
  template.generate [("a", "{{b}}"); ("b", "Z")] "{{a}} and {{b}}" = "{{b}} and Z".
Proof. reflexivity. Qed.

Lemma pushNoLabel_idempotent (gren : Gren) (issue : Issue) :
  pushNoLabel gren (pushNoLabel gren issue) = pushNoLabel gren issue.
Proof.
  unfold pushNoLabel.
  destruct ((length (issue_labels issue) =? 0)%nat
            && JS.truthy_opt (tpl_noLabel (opt_template (options gren)))) eqn:E;
    [reflexivity | now rewrite E].
Qed.

(** ** The range builder *)

Section Sorting.

Context {A : Type} (cmp : A -> A -> Z).

Lemma sort_insert_perm (x : A) (l : list A) :
  Permutation (x :: l) (JS.sort_insert cmp x l).
Proof.
  induction l as [|y r IH]; simpl; [reflexivity|].
  destruct (cmp y x <? 0); [|reflexivity].
  rewrite perm_swap. now constructor.
Qed.

Lemma sort_perm (l : list A) : Permutation l (JS.sort cmp l).
Proof.
  induction l as [|x r IH]; simpl; [constructor|].
  rewrite <- sort_insert_perm. now constructor.
Qed.

Lemma sort_length (l : list A) : length (JS.sort cmp l) = length l.
Proof. symmetry. apply Permutation_length, sort_perm. Qed.

End Sorting.

Lemma sort_insert_newest_first (x : DatedPoint) (l : list DatedPoint) :
  newest_first l ->
  newest_first
    (JS.sort_insert (fun release1 release2 => point_date release2 - point_date release1) x l).
Proof.
  unfold newest_first.
  induction l as [|y r IH]; simpl; intros Hs.
  - repeat constructor.
  - destruct (point_date x - point_date y <? 0) eqn:E.
    + apply Z.ltb_lt in E.
      inversion Hs as [|? ? Hr Hhd]; subst.
      constructor; [now apply IH|].
      destruct r as [|z r']; simpl.
      * constructor. lia.
      * destruct (point_date x - point_date z <? 0); constructor.
        -- now inversion Hhd.
        -- lia.
    + apply Z.ltb_ge in E.
      constructor; [assumption|]. constructor. lia.
Qed.

Lemma sortReleasesByDate_newest_first (l : list DatedPoint) :
  newest_first (sortReleasesByDate l).
Proof.
  unfold sortReleasesByDate.
  induction l as [|x r IH]; simpl.
  - constructor.
  - now apply sort_insert_newest_first.
Qed.

Lemma sortReleasesByDate_perm (l : list DatedPoint) :
  Permutation l (sortReleasesByDate l).
Proof. apply sort_perm. Qed.

Lemma slices_windows {A} (l : list A) :
  map (fun i => JS.slice i 2 l) (seq 0 (length l - 1)) = windows l.
Proof.
  induction l as [|a r IH]; [reflexivity|].
  destruct r as [|b r']; [reflexivity|].
  replace (length (a :: b :: r') - 1)%nat with (S (length (b :: r') - 1))
    by (simpl; lia).
  cbn [seq map]. rewrite <- seq_shift, map_map.
  cbn [windows]. f_equal. exact IH.
Qed.

Lemma windows_length {A} (l : list A) : length (windows l) = (length l - 1)%nat.
Proof.
  induction l as [|a r IH]; [reflexivity|].
  destruct r as [|b r']; [reflexivity|].
  cbn [windows length] in *. lia.
Qed.

Lemma windows_newest_first (l : list DatedPoint) :
  newest_first l ->
  Forall (fun range => exists newer older,
              range = [newer; older] /\ point_date newer >= point_date older)
         (windows l).
Proof.
  unfold newest_first.
  induction l as [|a r IH]; intros Hs; [constructor|].
  destruct r as [|b r']; [constructor|].
  inversion Hs as [|? ? Hr Hhd]; subst. inversion Hhd; subst.
  cbn [windows]. constructor; [eauto|]. now apply IH.
Qed.

Lemma windows_share {A} (l : list A) (i : nat) (a b c d : A) :
  windows l !! i = Some [a; b] ->
  windows l !! S i = Some [c; d] ->
  b = c.
Proof.
  revert i. induction l as [|x r IH]; intros i H1 H2; [discriminate|].
  destruct r as [|y r']; [discriminate|].
  destruct i as [|i].
  - cbn in H1. destruct r' as [|z r'']; [discriminate|].
    cbn in H2. congruence.
  - cbn [windows] in H1, H2. eapply IH; [exact H1 | exact H2].
Qed.

(** C8.  The output of the range builder is determined by the number of
    points.  Without points there is no range.  A single point gives one
    range, from that point down to the synthetic point of date zero and id
    0.  Two or more points give the adjacent pairs of the points sorted by
    descending date: one range fewer than there are points, each with a
    newer endpoint at least as recent as the older one, and each sharing its
    older endpoint with the newer endpoint of the next range. *)
Theorem createReleaseRanges_by_count (gren : Gren) :
  createReleaseRanges gren [] = []
  /\ (forall p,
        createReleaseRanges gren [p] = [[p; dateZero_point]]
        /\ point_date dateZero_point = 0
        /\ point_id dateZero_point = Some 0)
  /\ (forall points,
        (2 <= length points)%nat ->
        let sorted := sortReleasesByDate points in
        let ranges := createReleaseRanges gren points in
        Permutation points sorted
        /\ newest_first sorted
        /\ ranges = windows sorted
        /\ length ranges = (length points - 1)%nat
        /\ Forall (fun range => exists newer older,
                       range = [newer; older]
                       /\ point_date newer >= point_date older)
                  ranges
        /\ (forall i a b c d,
              ranges !! i = Some [a; b] -> ranges !! S i = Some [c; d] -> b = c)).
Proof.
  split; [reflexivity|]. split; [intros p; repeat split|].
  intros points Hlen sorted ranges.
  assert (Hsize : length sorted = length points) by apply sort_length.
  assert (Hranges : ranges = windows sorted).
  { subst ranges. unfold createReleaseRanges. fold sorted.
    destruct (length sorted =? 1)%nat eqn:E.
    - apply Nat.eqb_eq in E. lia.
    - apply slices_windows. }
  split; [apply sortReleasesByDate_perm|].
  split; [apply sortReleasesByDate_newest_first|].
  split; [exact Hranges|].
  rewrite Hranges.
  split; [rewrite <- Hsize; apply windows_length|].
  split; [apply windows_newest_first, sortReleasesByDate_newest_first|].
  intros i a b c d. apply windows_share.
Qed.

Lemma createReleaseRanges_by_count_witness :
  let points := [Sample.point None "v1" 10; Sample.point (Some 7) "v3" 30;
                 Sample.point None "v2" 20] in
  (2 <= length points)%nat
  /\ createReleaseRanges Sample.gren points
     = [[Sample.point (Some 7) "v3" 30; Sample.point None "v2" 20];
        [Sample.point None "v2" 20; Sample.point None "v1" 10]].
Proof.
  intros points. split; [simpl; lia|].
  destruct (createReleaseRanges_by_count Sample.gren) as (_ & _ & H).
  destruct (H points ltac:(simpl; lia)) as (_ & _ & Hw & _).
  rewrite Hw. reflexivity.
Defined.

(** ** The tag selector *)

Lemma includes_singleton (a b : string) : JS.includes a [b] = (a =? b)%string.
Proof. unfold JS.includes. simpl. apply orb_false_r. Qed.

(** Up to the first tag bearing the requested name nothing is selected;
    that tag and the one after it are. *)
Lemma getSelectedTags_filter_single (tags : list Tag) (t : string) (x y : Tag)
  (pre post : list Tag) (index : nat) :
  Forall (fun z => tag_name z <> t) pre ->
  tag_name x = t ->
  tags !! (index + length pre + 1)%nat = Some y ->
  getSelectedTags_filter tags index (pre ++ x :: y :: post) [t]
  = x :: y :: getSelectedTags_filter tags (index + length pre + 2) post [t; tag_name y].
Proof.
  revert index. induction pre as [|z pre IH]; intros index Hpre Hx Hy.
  - cbn [length app] in Hy |- *. rewrite Nat.add_0_r in Hy.
    cbn [getSelectedTags_filter].
    rewrite includes_singleton, Hx, String.eqb_refl.
    cbn [length Nat.eqb andb]. rewrite Hy.
    assert (Hin : JS.includes (tag_name y) [t; tag_name y] = true).
    { unfold JS.includes. simpl. rewrite String.eqb_refl. now rewrite orb_true_r. }
    cbn [app]. rewrite Hin. cbn [length Nat.eqb andb app].
    replace (index + 0 + 2)%nat with (S (S index)) by lia. reflexivity.
  - inversion Hpre as [|? ? Hz Hpre']; subst.
    cbn [app getSelectedTags_filter]. rewrite includes_singleton.
    apply String.eqb_neq in Hz. rewrite Hz. cbn [andb app].
    rewrite IH; [|assumption|reflexivity|].
    + replace (S index + length pre + 2)%nat with (index + S (length pre) + 2)%nat by lia.
      reflexivity.
    + rewrite <- Hy. f_equal. simpl. lia.
Qed.

(** C9.  For a non-empty request that does not contain 'all', the selector
    returns an array of at most two tags.  When a single name is requested,
    the first tag bearing that name is found at position [i] of the tag
    list and a tag follows it at position [i + 1], the result is exactly
    these two tags, so it contains both the requested tag and its
    successor. *)
Theorem getSelectedTags_explicit (optionTags : list string) (tags : list Tag) :
  JS.includes "all" optionTags = false ->
  optionTags <> [] ->
  exists selected,
    getSelectedTags optionTags tags = Selected selected
    /\ (length selected <= 2)%nat
    /\ (forall t i x y,
          optionTags = [t] ->
          tags !! i = Some x ->
          tag_name x = t ->
          (forall j z, (j < i)%nat -> tags !! j = Some z -> tag_name z <> t) ->
          tags !! S i = Some y ->
          selected = [x; y] /\ In x selected /\ In y selected).
Proof.
  intros Hall Hne. unfold getSelectedTags. rewrite Hall.
  destruct optionTags as [|t0 others]; [contradiction|]. simpl length. cbn [Nat.eqb].
  eexists. split; [reflexivity|]. split.
  - unfold JS.slice. rewrite length_firstn. lia.
  - intros t i x y Ht Hi Hx Hfirst Hnext. injection Ht as -> ->.
    assert (Hsplit : tags = firstn i tags ++ x :: y :: skipn (S (S i)) tags).
    { rewrite <- (take_drop_middle tags i x Hi) at 1.
      now rewrite (drop_S tags y (S i) Hnext). }
    assert (Hlen : length (firstn i tags) = i).
    { apply length_take_le. apply lookup_lt_Some in Hi. lia. }
    assert (Hpre : Forall (fun z => tag_name z <> t) (firstn i tags)).
    { apply Forall_forall. intros z Hz.
      apply (proj1 (list_elem_of_lookup _ _)) in Hz. destruct Hz as [j Hj].
      assert (j < i)%nat.
      { apply lookup_lt_Some in Hj. rewrite Hlen in Hj. exact Hj. }
      apply (Hfirst j); [assumption|].
      rewrite lookup_take_lt in Hj; assumption. }
    assert (Hsel : JS.slice 0 2 (getSelectedTags_filter tags 0 tags [t]) = [x; y]).
    { rewrite Hsplit at 2.
      rewrite (getSelectedTags_filter_single tags t x y); try assumption.
      - reflexivity.
      - rewrite Hlen. rewrite <- Hnext. f_equal. lia. }
    rewrite Hsel. split; [reflexivity|]. simpl. auto.
Qed.

Lemma getSelectedTags_explicit_witness :
  let tags := [ {| tag_name := "v3"; tag_sha := "c3" |};
                {| tag_name := "v2"; tag_sha := "c2" |};
                {| tag_name := "v1"; tag_sha := "c1" |} ] in
  JS.includes "all" ["v2"] = false
  /\ ["v2"] <> []
  /\ exists selected,
       getSelectedTags ["v2"] tags = Selected selected
       /\ selected = [ {| tag_name := "v2"; tag_sha := "c2" |};
                       {| tag_name := "v1"; tag_sha := "c1" |} ].
Proof.
  intros tags. split; [reflexivity|]. split; [discriminate|].
  destruct (getSelectedTags_explicit ["v2"] tags) as (selected & Hsel & _ & Hboth);
    [reflexivity | discriminate |].
  exists selected. split; [exact Hsel|].
  refine (proj1 (Hboth "v2" 1%nat _ _ eq_refl eq_refl eq_refl _ eq_refl)).
  intros j z Hj Hz.
  destruct j as [|j]; [|lia].
  injection Hz as <-. discriminate.
Defined.

(** ** The body of a commit block *)

Lemma removelast_map_Some {A} (l : list A) :
  removelast (map Some l) = map Some (removelast l).
Proof.
  induction l as [|a r IH]; [reflexivity|].
  destruct r as [|b r']; [reflexivity|].
  cbn [map removelast] in *. now rewrite IH.
Qed.

(** After the push of [null] and the slice only strings are left. *)
Lemma sliced_messages (messages : list string) :
  JS.slice_0_m1
    (if (length messages =? 1)%nat then map Some messages ++ [None]
     else map Some messages)
  = map Some (eligible messages).
Proof.
  unfold JS.slice_0_m1, eligible.
  destruct (length messages =? 1)%nat.
  - apply removelast_last.
  - apply removelast_map_Some.
Qed.

Section CommitBody.

Variable host : Host.
Variable gren : Gren.

Let messageType := opt_includeMessages (options gren).

Hypothesis plain_mode : filterMap messageType = None -> inherited_object host messageType = false.

Lemma generateCommitsBody_filter_keeps (m : string) :
  generateCommitsBody_filter host gren (Some m) = Resolved (keeps messageType m).
Proof.
  unfold generateCommitsBody_filter, keeps. fold messageType.
  revert plain_mode. unfold filterMap.
  destruct (messageType =? "merges")%string; [reflexivity|].
  destruct (messageType =? "commits")%string eqn:Ec.
  - apply String.eqb_eq in Ec. rewrite Ec. reflexivity.
  - destruct (messageType =? "all")%string; [reflexivity|].
    intros ->; reflexivity.
Qed.

Lemma ofilter_messages (l : list string) :
  ofilter (generateCommitsBody_filter host gren) (map Some l)
  = Resolved (map Some (List.filter (keeps messageType) l)).
Proof.
  induction l as [|m r IH]; [reflexivity|].
  cbn [map ofilter List.filter].
  rewrite generateCommitsBody_filter_keeps, IH. cbn [obind].
  now destruct (keeps messageType m).
Qed.

(** C6, as amended.  The commit-mode body is the newline-join of the
    rendered templates of the eligible messages that the include-mode
    keeps.  The eligible messages are the first N-1 of N messages, except
    that a list of exactly one message keeps that message: the [null]
    pushed after it is what the slice removes.  'merges' keeps the messages
    that begin with "merge" in any case, 'all' keeps every eligible message,
    'commits' and every mode that names no entry of the filter table keep
    the others. *)
Theorem generateCommitsBody_eligible (messages : list string) :
  generateCommitsBody host gren messages
  = Resolved
      (JS.join JS.nl
         (map (fun m => templateCommits gren (Some m))
              (List.filter (keeps messageType) (eligible messages)))).
Proof.
  unfold generateCommitsBody.
  rewrite sliced_messages, ofilter_messages. cbn [obind].
  now rewrite map_map.
Qed.

End CommitBody.

Lemma generateCommitsBody_eligible_witness :
  (filterMap (opt_includeMessages (options Sample.gren)) = None ->
   inherited_object Sample.host (opt_includeMessages (options Sample.gren)) = false)
  /\ generateCommitsBody Sample.host Sample.gren ["fix: a"; "merge: b"; "feat: c"]
     = Resolved "- fix: a".
Proof.
  split; [discriminate|].
  rewrite (generateCommitsBody_eligible Sample.host Sample.gren); [reflexivity|].
  discriminate.
Defined.

(** C6 fails as stated: a list of exactly one message does not give an
    empty body; the message is rendered. *)
Lemma generateCommitsBody_single_message :
  generateCommitsBody Sample.host Sample.gren ["fix: a"] = Resolved "- fix: a"
  /\ generateCommitsBody Sample.host Sample.gren ["fix: a"] <> Resolved "".
Proof. split; [reflexivity | discriminate]. Qed.

(** ** Grouping by a custom mapping *)

Lemma Obj_set_fresh {V} (o : list (string * V)) (k : string) (v : V) :
  ~ In k (map fst o) -> Obj.set o k v = o ++ [(k, v)].
Proof.
  induction o as [|[k' v'] r IH]; intros Hk; [reflexivity|].
  cbn [Obj.set app]. cbn [map fst In] in Hk.
  destruct (k' =? k)%string eqn:E.
  - apply String.eqb_eq in E. tauto.
  - rewrite IH; [reflexivity | tauto].
Qed.

Lemma allLabels_fold (mapping : list (string * list string)) (acc : list string) :
  fold_left (fun carry group => carry ++ snd group) mapping acc
  = acc ++ named_labels mapping.
Proof.
  unfold named_labels. revert acc.
  induction mapping as [|g r IH]; intros acc; cbn [fold_left map concat].
  - now rewrite app_nil_r.
  - rewrite IH. now rewrite app_assoc.
Qed.

Section Mapping.

Variable gren : Gren.
Variable issues : list Issue.
Variable allLabels : list string.

Let members (group : string * list string) : list Issue :=
  List.filter (groupBy_filter gren allLabels group) issues.

Lemma groups_fold (mapping acc : list (string * list string)) :
  List.NoDup (map fst mapping) ->
  ~ In "__proto__" (map fst mapping) ->
  (forall k, In k (map fst mapping) -> ~ In k (map fst acc)) ->
  fold_left (fun carry group =>
               let groupIssues := map (templateIssue gren) (members group) in
               if (0 <? length groupIssues)%nat
               then Obj.assign carry (fst group) groupIssues
               else carry)
            mapping acc
  = acc ++ flat_map (fun group =>
                       match members group with
                       | [] => []
                       | selected => [(fst group, map (templateIssue gren) selected)]
                       end)
                    mapping.
Proof.
  revert acc. induction mapping as [|group rest IH]; intros acc Hnd Hproto Hfresh.
  - cbn. now rewrite app_nil_r.
  - cbn [fold_left flat_map]. cbn [map In] in Hproto, Hfresh.
    apply List.NoDup_cons_iff in Hnd as [Hhead Hnd].
    destruct (members group) as [|i sel] eqn:Em.
    + cbn [map length Nat.ltb Nat.leb app]. apply IH; auto.
    + cbn [map length Nat.ltb Nat.leb]. unfold Obj.assign.
      destruct (fst group =? "__proto__")%string eqn:Ep.
      { apply String.eqb_eq in Ep. exfalso. apply Hproto. now left. }
      rewrite Obj_set_fresh by (apply Hfresh; now left).
      rewrite IH; auto.
      * now rewrite <- app_assoc.
      * intros k Hk. rewrite map_app, in_app_iff. cbn [map fst In].
        intros [Hin | [Heq | []]].
        -- apply (Hfresh k); auto.
        -- subst k. contradiction.
Qed.

End Mapping.

Lemma groupBy_groups_sections (gren : Gren) (mapping : list (string * list string))
  (issues : list Issue) :
  List.NoDup (map fst mapping) ->
  ~ In "__proto__" (map fst mapping) ->
  groupBy_groups gren mapping issues = sections gren mapping issues.
Proof.
  intros Hnd Hproto. unfold groupBy_groups, sections.
  rewrite allLabels_fold. cbn [app].
  rewrite groups_fold; auto.
Qed.

Lemma sections_keys_sublist (gren : Gren) (mapping : list (string * list string))
  (issues : list Issue) (L : list string) :
  sublist
    (map fst (flat_map (fun group =>
                          match List.filter (groupBy_filter gren L group) issues with
                          | [] => []
                          | selected => [(fst group, map (templateIssue gren) selected)]
                          end)
                       mapping))
    (map fst mapping).
Proof.
  induction mapping as [|group rest IH]; [constructor|].
  cbn [flat_map map].
  destruct (List.filter (groupBy_filter gren L group) issues).
  - cbn [app]. now constructor.
  - cbn [app map fst]. now constructor.
Qed.

Lemma includes_true (x : string) (l : list string) :
  JS.includes x l = true <-> In x l.
Proof.
  unfold JS.includes. rewrite existsb_exists. split.
  - intros (y & Hy & E). apply String.eqb_eq in E. now subst.
  - intros H. exists x. split; [assumption | apply String.eqb_refl].
Qed.

Lemma includes_false (x : string) (l : list string) :
  JS.includes x l = false <-> ~ In x l.
Proof.
  rewrite <- includes_true. destruct (JS.includes x l); split; congruence.
Qed.

Lemma unique_key {V} (o : list (string * V)) (a b : string * V) :
  List.NoDup (map fst o) -> In a o -> In b o -> fst a = fst b -> a = b.
Proof.
  induction o as [|e r IH]; intros Hnd Ha Hb Hk; [contradiction|].
  cbn [map] in Hnd. apply List.NoDup_cons_iff in Hnd as [Hhead Hnd].
  destruct Ha as [-> | Ha], Hb as [-> | Hb]; auto.
  - exfalso. apply Hhead. rewrite Hk. now apply in_map.
  - exfalso. apply Hhead. rewrite <- Hk. now apply in_map.
Qed.

Lemma groupBy_filter_named (gren : Gren) (L : list string) (group : string * list string)
  (issue : Issue) (l : string) :
  In l (labels_of gren issue) -> In l (snd group) ->
  groupBy_filter gren L group issue = true.
Proof.
  unfold labels_of, groupBy_filter. intros Hl Hg.
  apply in_map_iff in Hl as (label & <- & Hlabel).
  apply existsb_exists. exists label. split; [assumption|].
  apply orb_true_iff. left. now apply includes_true.
Qed.

Lemma groupBy_filter_other (gren : Gren) (L : list string) (group : string * list string)
  (issue : Issue) :
  In "..." (snd group) ->
  labels_of gren issue <> [] ->
  (forall l, In l (labels_of gren issue) -> ~ In l L) ->
  groupBy_filter gren L group issue = true.
Proof.
  unfold labels_of, groupBy_filter. intros Hdots Hsome Hnone.
  destruct (issue_labels (pushNoLabel gren issue)) as [|label rest]; [contradiction|].
  apply existsb_exists. exists label. split; [now left|].
  apply orb_true_iff. right. apply andb_true_iff. split.
  - now apply includes_true.
  - apply negb_true_iff, includes_false, Hnone. now left.
Qed.

Section CustomGroups.

Variable host : Host.
Variable gren : Gren.
Variable mapping : list (string * list string).

Hypothesis groupBy_option : opt_groupBy (options gren) = GroupByObject mapping.
Hypothesis distinct_names : List.NoDup (map fst mapping).
Hypothesis no_proto_name : ~ In "__proto__" (map fst mapping).

(** C7, as amended.  For a custom mapping, the output has one section per
    group that selects at least one issue, in the order of the mapping, and
    a group that selects no issue has no section.  Every group takes its
    members from the whole issue list, so an issue can be in several
    groups.  A group selects every issue one of whose labels is in its
    label list.  A group whose list contains the token '...' selects every
    issue that has at least one label (its own, or the placeholder given to
    an unlabelled issue when one is configured) and none of whose labels is
    named in any group. *)
Theorem groupBy_custom_mapping (issues : list Issue) :
  groupBy host gren issues = Resolved (templateGroups gren (sections gren mapping issues))
  /\ sublist (map fst (sections gren mapping issues)) (map fst mapping)
  /\ (forall group,
        In group mapping ->
        let members :=
          List.filter (groupBy_filter gren (named_labels mapping) group) issues in
        (members = [] -> ~ In (fst group) (map fst (sections gren mapping issues)))
        /\ (members <> [] ->
            In (fst group, map (templateIssue gren) members)
               (sections gren mapping issues))
        /\ (forall issue l,
              In issue issues ->
              In l (labels_of gren issue) -> In l (snd group) ->
              In issue members)
        /\ (forall issue,
              In issue issues ->
              In "..." (snd group) ->
              labels_of gren issue <> [] ->
              (forall l, In l (labels_of gren issue) -> ~ In l (named_labels mapping)) ->
              In issue members)).
Proof.
  split.
  { unfold groupBy. rewrite groupBy_option.
    now rewrite groupBy_groups_sections. }
  split; [apply sections_keys_sublist|].
  intros group Hgroup members. repeat split.
  - intros Hempty Hin. unfold sections in Hin.
    apply in_map_iff in Hin as (section & Hname & Hsection).
    apply in_flat_map in Hsection as (group' & Hgroup' & Hsec).
    destruct (List.filter _ issues) as [|i sel] eqn:Esel in Hsec; [contradiction|].
    destruct Hsec as [<- | []]. cbn [fst] in Hname.
    assert (group' = group) by (eapply unique_key; eauto). subst group'.
    subst members. congruence.
  - intros Hsome. unfold sections. apply in_flat_map. exists group.
    split; [assumption|]. fold members.
    destruct members; [contradiction | now left].
  - intros issue l Hissue Hl Hg. apply filter_In. split; [assumption|].
    eapply groupBy_filter_named; eauto.
  - intros issue Hissue Hdots Hsome Hnone. apply filter_In. split; [assumption|].
    now apply groupBy_filter_other.
Qed.

End CustomGroups.

Lemma groupBy_custom_mapping_witness :
  let mapping := [("Bugs", ["bug"]); ("Features", ["feature"]); ("Other", ["..."])] in
  let gren := Sample.gren_with "issues" false false (GroupByObject mapping) None in
  let issues := [Sample.issue 1 ["docs"] None; Sample.issue 2 ["bug"] None] in
  opt_groupBy (options gren) = GroupByObject mapping
  /\ List.NoDup (map fst mapping)
  /\ ~ In "__proto__" (map fst mapping)
  /\ groupBy Sample.host gren issues
     = Resolved
         ["#### Bugs" +:+ JS.nl +:+ "- [bug] An issue #2";
          "#### Other" +:+ JS.nl +:+ "- [docs] An issue #1"].
Proof.
  intros mapping gren issues.
  assert (Hnd : List.NoDup (map fst mapping)).
  { repeat constructor; cbn; intuition discriminate. }
  assert (Hproto : ~ In "__proto__" (map fst mapping)).
  { cbn; intuition discriminate. }
  split; [reflexivity|]. split; [exact Hnd|]. split; [exact Hproto|].
  rewrite (proj1 (groupBy_custom_mapping Sample.host gren mapping eq_refl Hnd Hproto issues)).
  reflexivity.
Defined.

(** C7 fails as stated: with no placeholder label configured, an issue
    without labels shares no label with any group and yet is not placed in
    the group that holds the token '...'; nothing is output. *)
Lemma groupBy_unlabelled_issue_left_out :
  let mapping := [("Bugs", ["bug"]); ("Other", ["..."])] in
  let gren := Sample.gren_with "issues" false false (GroupByObject mapping) None in
  let issue := Sample.issue 1 [] None in
  (forall l, In l (map label_name (issue_labels issue)) -> ~ In l (named_labels mapping))
  /\ In "..." (snd ("Other", ["..."]))
  /\ groupBy Sample.host gren [issue] = Resolved [].
Proof.
  intros mapping gren issue. split; [intros l []|]. split; [now left | reflexivity].
Qed.

(** ** Grouping by label *)


Section ByLabel.

Variable host : Host.
Variable gren : Gren.

Let noLabel := tpl_noLabel (opt_template (options gren)).








End ByLabel.


(** ** The release synchronizer *)

(** The test on [block.id] is a truthiness test: an id of 0 counts as no
    release. *)
Lemma prepareRelease_id_zero (gren : Gren) (block : Block) (w : World) :
  block_id block = Some 0 ->
  exists releaseOptions,
    calls (snd (prepareRelease gren block w)) = calls w ++ [CreateRelease releaseOptions].
Proof.
  intros H. unfold prepareRelease. rewrite H. cbn [JS.truthy_id Z.eqb negb].
  unfold createRelease, then_, call. cbn.
  eexists. now destruct (api_createRelease _ _).
Qed.

(** C3.  [prepareRelease] on one block, with the release options built from
    the block.  A block whose id is [null] makes exactly one call, a
    [createRelease].  A block that carries the id of an existing release
    makes exactly one call, an [updateRelease] with that id, when the
    override option is set; when it is not set, the block makes no call,
    writes the skip warning and resolves, so that the next block is
    processed.  (Ids of existing releases are not 0.) *)
Theorem prepareRelease_cases (gren : Gren) (block : Block) (w : World) :
  let releaseOptions :=
    {| ro_tag_name := block_release block;
       ro_name := block_name block;
       ro_body := block_body block;
       ro_draft := opt_draft (options gren);
       ro_prerelease := opt_prerelease (options gren) |} in
  let outcome := fst (prepareRelease gren block w) in
  let w' := snd (prepareRelease gren block w) in
  (block_id block = None ->
   calls w' = calls w ++ [CreateRelease releaseOptions]
   /\ outcome = obind (api_createRelease (repo gren) releaseOptions)
                      (fun release => Resolved (Some release)))
  /\ (forall id,
        block_id block = Some id -> id <> 0 ->
        opt_override (options gren) = true ->
        calls w' = calls w ++ [UpdateRelease id releaseOptions]
        /\ outcome = obind (api_updateRelease (repo gren) id releaseOptions)
                           (fun release => Resolved (Some release)))
  /\ (forall id,
        block_id block = Some id -> id <> 0 ->
        opt_override (options gren) = false ->
        calls w' = calls w
        /\ outcome = Resolved None
        /\ console w' = console w
                        ++ ["Skipping " +:+ JS.str (block_release block)
                            +:+ " (use --override to replace it)"]
        /\ files w' = files w).
Proof.
  intros releaseOptions outcome w'. subst outcome w'.
  unfold prepareRelease. fold releaseOptions.
  split; [|split].
  - intros ->. unfold createRelease, then_, call. cbn.
    now destruct (api_createRelease (repo gren) releaseOptions).
  - intros id -> Hid ->. cbn [JS.truthy_id].
    apply Z.eqb_neq in Hid. rewrite Hid.
    unfold editRelease, then_, call. cbn.
    now destruct (api_updateRelease (repo gren) id releaseOptions).
  - intros id -> Hid ->. cbn [JS.truthy_id].
    apply Z.eqb_neq in Hid. rewrite Hid. cbn. auto.
Qed.

Lemma prepareRelease_cases_witness :
  let fresh := {| block_id := None; block_name := "v2.0.0"; block_release := Some "v2.0.0";
                  block_published_at := 2000; block_body := "Notes" |} in
  let known := {| block_id := Some 5; block_name := "v1.0.0"; block_release := Some "v1.0.0";
                  block_published_at := 1000; block_body := "Notes" |} in
  let keep := Sample.gren in
  let replace := Sample.gren_with "issues" false true GroupByFalse None in
  let options_of (b : Block) :=
    {| ro_tag_name := block_release b; ro_name := block_name b; ro_body := block_body b;
       ro_draft := false; ro_prerelease := false |} in
  (block_id fresh = None
   /\ calls (snd (prepareRelease keep fresh Sample.world)) = [CreateRelease (options_of fresh)])
  /\ (block_id known = Some 5 /\ 5 <> 0 /\ opt_override (options replace) = true
      /\ calls (snd (prepareRelease replace known Sample.world))
         = [UpdateRelease 5 (options_of known)])
  /\ (block_id known = Some 5 /\ 5 <> 0 /\ opt_override (options keep) = false
      /\ calls (snd (prepareRelease keep known Sample.world)) = []
      /\ console (snd (prepareRelease keep known Sample.world))
         = ["Skipping v1.0.0 (use --override to replace it)"]).
Proof.
  intros fresh known keep replace options_of.
  destruct (prepareRelease_cases keep fresh Sample.world) as (Hcreate & _ & _).
  destruct (prepareRelease_cases replace known Sample.world) as (_ & Hupdate & _).
  destruct (prepareRelease_cases keep known Sample.world) as (_ & _ & Hskip).
  split; [|split].
  - split; [reflexivity|]. exact (proj1 (Hcreate eq_refl)).
  - split; [reflexivity|]. split; [lia|]. split; [reflexivity|].
    exact (proj1 (Hupdate 5 eq_refl ltac:(lia) eq_refl)).
  - split; [reflexivity|]. split; [lia|]. split; [reflexivity|].
    destruct (Hskip 5 eq_refl ltac:(lia) eq_refl) as (Hcalls & _ & Hconsole & _).
    split; [exact Hcalls | exact Hconsole].
Defined.

(** ** The release command *)

Lemma only_reads_same {A} (p : Promise A) :
  (forall w, calls (snd (p w)) = calls w) -> only_reads p.
Proof. intros H w. exists []. now rewrite H, app_nil_r. Qed.

Lemma only_reads_resolve {A} (a : A) : only_reads (resolve a).
Proof. now apply only_reads_same. Qed.

Lemma only_reads_reject {A} (e : Thrown) : only_reads (@reject A e).
Proof. now apply only_reads_same. Qed.

Lemma only_reads_settle {A} (o : Result A) : only_reads (settle o).
Proof. now apply only_reads_same. Qed.

Lemma only_reads_print (line : string) : only_reads (print line).
Proof. now apply only_reads_same. Qed.

Lemma only_reads_call {A} (c : ApiCall) (answer : Result A) :
  reads c = true -> only_reads (call c answer).
Proof. intros Hc w. exists [c]. cbn. now rewrite Hc. Qed.

Lemma only_reads_then {A B} (p : Promise A) (k : A -> Promise B) :
  only_reads p -> (forall a, only_reads (k a)) -> only_reads (then_ p k).
Proof.
  intros Hp Hk w. unfold then_.
  destruct (Hp w) as (new1 & E1 & R1).
  destruct (p w) as [[a|e] w1]; cbn [snd] in *.
  - destruct (Hk a w1) as (new2 & E2 & R2).
    exists (new1 ++ new2). rewrite E2, E1, app_assoc. split; [reflexivity|].
    rewrite forallb_app. now rewrite R1, R2.
  - exists new1. auto.
Qed.

Lemma only_reads_start_map {A B} (f : A -> Result (Promise B)) (l : list A) :
  (forall x p, f x = Resolved p -> only_reads p) ->
  forall w, exists new,
    calls (snd (start_map f l w)) = calls w ++ new /\ forallb reads new = true.
Proof.
  intros Hf. induction l as [|x r IH]; intros w; cbn [start_map].
  - exists []. now rewrite app_nil_r.
  - destruct (f x) as [p|e] eqn:Ef.
    + destruct (Hf x p Ef w) as (new1 & E1 & R1).
      destruct (p w) as [ox w1]. cbn [snd] in E1.
      destruct (IH w1) as (new2 & E2 & R2).
      destruct (start_map f r w1) as [rest w2]. cbn [snd] in *.
      exists (new1 ++ new2). rewrite E2, E1, app_assoc. split; [reflexivity|].
      rewrite forallb_app. now rewrite R1, R2.
    + exists []. now rewrite app_nil_r.
Qed.

Lemma only_reads_all_map {A B} (f : A -> Result (Promise B)) (l : list A) :
  (forall x p, f x = Resolved p -> only_reads p) -> only_reads (all_map f l).
Proof.
  intros Hf w. unfold all_map.
  destruct (only_reads_start_map f l Hf w) as (new & E & R).
  destruct (start_map f l w) as [started w']. eauto.
Qed.

Create HintDb reads.

#[local] Hint Resolve only_reads_resolve only_reads_reject only_reads_settle
  only_reads_print : reads.

Ltac only_reads_steps :=
  repeat first
    [ apply only_reads_then; [|intros ?]
    | apply only_reads_call; reflexivity
    | solve [auto with reads] ].

Section ReadOnly.

Variable host : Host.
Variable gren : Gren.

Lemma getListReleases_reads : only_reads (getListReleases gren).
Proof. unfold getListReleases. only_reads_steps. Qed.

Lemma getLastTags_reads (releases : list Release) : only_reads (getLastTags gren releases).
Proof. unfold getLastTags. only_reads_steps. Qed.

Lemma getTagDates_reads (tags : list TagInfo) : only_reads (getTagDates gren tags).
Proof.
  unfold getTagDates. apply only_reads_all_map.
  intros tag p [= <-]. only_reads_steps.
Qed.

Lemma getCommitsBetweenTwo_reads (since until : Z) :
  only_reads (getCommitsBetweenTwo host gren since until).
Proof. unfold getCommitsBetweenTwo. only_reads_steps. Qed.

Lemma getCommitBlocks_reads (releaseRanges : list Range) :
  only_reads (getCommitBlocks host gren releaseRanges).
Proof.
  unfold getCommitBlocks. apply only_reads_then; [auto with reads|]. intros _.
  apply only_reads_all_map. intros range p.
  destruct (range !! 1%nat); [|discriminate].
  destruct (range !! 0%nat); [|discriminate].
  intros [= <-]. apply only_reads_then; [apply getCommitsBetweenTwo_reads|].
  intros commits. only_reads_steps.
Qed.

Lemma getClosedIssues_reads (releaseRanges : list Range) :
  only_reads (getClosedIssues gren releaseRanges).
Proof.
  unfold getClosedIssues.
  destruct (releaseRanges !! _); [|auto with reads].
  destruct (_ !! 1%nat); [|auto with reads].
  only_reads_steps.
Qed.

Lemma getIssueBlocks_reads (releaseRanges : list Range) :
  only_reads (getIssueBlocks host gren releaseRanges).
Proof.
  unfold getIssueBlocks. apply only_reads_then; [auto with reads|]. intros _.
  apply only_reads_then; [apply getClosedIssues_reads|]. intros issues.
  auto with reads.
Qed.

Lemma getReleaseBlocks_reads : only_reads (getReleaseBlocks host gren).
Proof.
  unfold getReleaseBlocks.
  apply only_reads_then; [apply getListReleases_reads|]. intros releases.
  apply only_reads_then; [apply getLastTags_reads|]. intros tags.
  apply only_reads_then; [apply getTagDates_reads|]. intros releaseDates.
  cbv zeta.
  repeat match goal with
         | |- only_reads (if ?c then _ else _) => destruct c
         end;
    auto using getIssueBlocks_reads, getCommitBlocks_reads with reads.
Qed.

End ReadOnly.

(** C2.  The release command never reaches a create or update call.  Every
    call it adds to those the client has received is a read
    ([listReleases], [listTags], [getCommit], [listCommits], [listIssues]);
    none is a [createRelease] or an [updateRelease].  The command always
    ends rejected: with the failure of an earlier stage, or, once the
    blocks are built, with the blocks themselves, thrown before the loop
    that would prepare the releases. *)
Theorem release_never_creates_or_updates (host : Host) (gren : Gren) (w : World) :
  (exists new,
      calls (snd (release host gren w)) = calls w ++ new
      /\ forall c, In c new ->
           reads c = true
           /\ (forall releaseOptions, c <> CreateRelease releaseOptions)
           /\ (forall releaseId releaseOptions,
                 c <> UpdateRelease releaseId releaseOptions))
  /\ (exists thrown, fst (release host gren w) = Rejected thrown)
  /\ (forall blocks w1,
        getReleaseBlocks host gren w = (Resolved blocks, w1) ->
        release host gren w = (Rejected (ThrownBlocks blocks), w1)).
Proof.
  destruct (getReleaseBlocks_reads host gren w) as (new & Hcalls & Hreads).
  assert (Hrelease :
            release host gren w
            = match getReleaseBlocks host gren w with
              | (Resolved blocks, w1) => (Rejected (ThrownBlocks blocks), w1)
              | (Rejected e, w1) => (Rejected e, w1)
              end).
  { unfold release, then_. now destruct (getReleaseBlocks host gren w) as [[blocks|e] w1]. }
  split; [|split].
  - exists new. split.
    + rewrite Hrelease.
      now destruct (getReleaseBlocks host gren w) as [[blocks|e] w1].
    + intros c Hc. rewrite forallb_forall in Hreads. specialize (Hreads c Hc).
      split; [assumption|]. split; intros; intros ->; discriminate.
  - rewrite Hrelease.
    destruct (getReleaseBlocks host gren w) as [[blocks|e] w1]; cbn; eauto.
  - intros blocks w1 Hblocks. now rewrite Hrelease, Hblocks.
Qed.

Lemma release_never_creates_or_updates_witness :
  let gren := Sample.gren_with "commits" false false GroupByFalse None in
  exists blocks w1,
    getReleaseBlocks Sample.host gren Sample.world = (Resolved blocks, w1)
    /\ release Sample.host gren Sample.world = (Rejected (ThrownBlocks blocks), w1)
    /\ blocks = [ {| block_id := Some 5; block_name := "v1.0.0";
                     block_release := Some "v1.0.0"; block_published_at := 1000;
                     block_body := "- fix: a" +:+ JS.nl |} ]
    /\ calls w1 = [ListReleases; ListTags; GetCommit "abc"; ListCommits 0 1000].
Proof.
  intros gren.
  destruct (getReleaseBlocks Sample.host gren Sample.world) as [outcome w1] eqn:E.
  destruct outcome as [blocks|e]; [|vm_compute in E; discriminate].
  exists blocks, w1.
  destruct (release_never_creates_or_updates Sample.host gren Sample.world)
    as (_ & _ & Hthrow).
  split; [reflexivity|]. split; [exact (Hthrow blocks w1 E)|].
  vm_compute in E. injection E as <- <-. split; reflexivity.
Defined.

(** ** The changelog command *)

(** [checkChangelogFile] resolves in every world, also when the file exists
    and must not be overridden; it changes neither the files nor the calls. *)
Lemma checkChangelogFile_resolves (host : Host) (gren : Gren) (w : World) :
  fst (checkChangelogFile host gren w) = Resolved tt
  /\ files (snd (checkChangelogFile host gren w)) = files w
  /\ calls (snd (checkChangelogFile host gren w)) = calls w.
Proof.
  unfold checkChangelogFile, then_.
  now destruct (existsSync (changelogPath host gren) w && negb (opt_override (options gren))).
Qed.

(** With an existing file and no override, the stage after the check still
    runs: the releases are requested. *)
Lemma changelog_goes_on (host : Host) (gren : Gren) (w : World) :
  existsSync (changelogPath host gren) w = true ->
  opt_override (options gren) = false ->
  opt_generate (options gren) = false ->
  exists later, calls (snd (changelog host gren w)) = calls w ++ ListReleases :: later.
Proof.
  intros Hexists Hoverride Hgenerate.
  unfold changelog, checkChangelogFile, then_ at 1 2.
  rewrite Hexists, Hoverride, Hgenerate. cbn [negb andb drop_rejection resolve].
  unfold getListReleases, then_, call, print. cbn [calls].
  destruct (api_listReleases (repo gren)) as [releases|e]; cbn [calls snd].
  - unfold changelog_write. cbn.
    match goal with |- context [if ?c then _ else _] => destruct c end;
      exists []; reflexivity.
  - exists []. reflexivity.
Qed.

(** C1, on the code.  The changelog file exists and the override option is
    not set, and yet the command does not abort: the check resolves, the
    releases are fetched and the file is written over.  The rejection that
    was meant to stop the command is left behind, unhandled. *)
Theorem changelog_overwrites_existing_file :
  let w := Sample.world_with_changelog in
  let after := changelog Sample.host Sample.gren w in
  existsSync (changelogPath Sample.host Sample.gren) w = true
  /\ opt_override (options Sample.gren) = false
  /\ fst (checkChangelogFile Sample.host Sample.gren w) = Resolved tt
  /\ fst after = Resolved tt
  /\ calls (snd after) = [ListReleases]
  /\ files (snd after) !! "/repo/CHANGELOG.md"
     = Some ("# Changelog" +:+ JS.nl +:+ "## v1.0.0 (1000)" +:+ JS.nl +:+ "First release")
  /\ dropped (snd after)
     = [ThrownMessage
          "Looks like there is already a changelog, to override it use --override"].
Proof. vm_compute. repeat split. Qed.

(** ** The issue pre-filter *)

Lemma compareIssueLabels_fold (ignoreLabels : list string) (labels : list Label) (carry : bool) :
  fold_left (fun carry ignoredLabel =>
               carry && negb (JS.includes ignoredLabel (map label_name labels)))
            ignoreLabels carry
  = carry && forallb (fun ignoredLabel =>
                        negb (JS.includes ignoredLabel (map label_name labels)))
                     ignoreLabels.
Proof.
  revert carry. induction ignoreLabels as [|l r IH]; intros carry; cbn [fold_left forallb].
  - now rewrite andb_true_r.
  - rewrite IH. now rewrite andb_assoc.
Qed.

(** The labels pass when none of them is on the ignore list. *)
Lemma compareIssueLabels_true (ignoreLabels : list string) (labels : list Label) :
  compareIssueLabels ignoreLabels labels = true
  <-> forall label, In label labels -> ~ In (label_name label) ignoreLabels.
Proof.
  unfold compareIssueLabels. rewrite compareIssueLabels_fold. cbn [andb].
  rewrite forallb_forall. split.
  - intros H label Hlabel Hignored. specialize (H _ Hignored).
    apply negb_true_iff, includes_false in H. apply H. now apply in_map.
  - intros H ignored Hignored. apply negb_true_iff, includes_false.
    intros Hin. apply in_map_iff in Hin as (label & <- & Hlabel). now apply (H label).
Qed.

(** What the code computes: with [onlyMilestones] set, the last conjunct is
    false whatever the issue is. *)
Lemma filterIssue_onlyMilestones (gren : Gren) (issue : Issue) :
  opt_onlyMilestones (options gren) = true -> filterIssue gren issue = false.
Proof.
  intros H. unfold filterIssue. rewrite H. cbn [orb negb]. now rewrite andb_false_r.
Qed.

Lemma filterIssue_without_onlyMilestones (gren : Gren) (issue : Issue) :
  opt_onlyMilestones (options gren) = false ->
  filterIssue gren issue
  = negb (issue_pull_request issue)
    && compareIssueLabels (opt_ignoreIssuesWith (options gren)) (issue_labels issue)
    && negb ((opt_dataSource (options gren) =? "milestones")%string
             && negb (bool_decide (is_Some (issue_milestone issue)))).
Proof. intros H. unfold filterIssue. now rewrite H. Qed.

(** C4, on the code.  With [onlyMilestones] set, an issue that is not a pull
    request, carries no ignored label and does have a milestone is excluded
    all the same. *)
Theorem filterIssue_excludes_issue_with_milestone :
  let gren := Sample.gren_with "issues" true false GroupByFalse None in
  let issue := Sample.issue 7 ["bug"] (Some "Release v1.0.0") in
  issue_pull_request issue = false
  /\ compareIssueLabels (opt_ignoreIssuesWith (options gren)) (issue_labels issue) = true
  /\ issue_milestone issue = Some {| milestone_title := "Release v1.0.0" |}
  /\ opt_onlyMilestones (options gren) = true
  /\ filterIssue gren issue = false.
Proof. repeat split. Qed.

(** ** The body of an issue block *)

Section IssueBlock.

Variable host : Host.
Variable gren : Gren.
Variable issues : list Issue.
Variable range : Range.
Variable newer : DatedPoint.
Variable filteredIssues : list Issue.

Hypothesis newer_endpoint : range !! 0%nat = Some newer.
Hypothesis classified : ofilter (filterBlockIssue gren range) issues = Resolved filteredIssues.


End IssueBlock.



(** ** The endpoints that the pipeline builds *)

Lemma start_map_Forall {A B} (P : B -> Prop) (f : A -> Result (Promise B)) (l : list A) :
  (forall x p w b w', f x = Resolved p -> p w = (Resolved b, w') -> P b) ->
  forall w outcomes w',
    start_map f l w = (Resolved outcomes, w') ->
    Forall (fun o => forall b, o = Resolved b -> P b) outcomes.
Proof.
  intros Hf. induction l as [|x r IH]; intros w outcomes w'; cbn [start_map].
  - intros [= <- _]. constructor.
  - destruct (f x) as [p|e] eqn:Ef; [|discriminate].
    destruct (p w) as [ox w1] eqn:Ep.
    destruct (start_map f r w1) as [[rest|e] w2] eqn:Er; cbn [obind]; [|discriminate].
    intros [= <- _]. constructor; [|eauto].
    intros b ->. eauto.
Qed.

Lemma omap_settled_Forall {B} (P : B -> Prop) (outcomes : list (Result B)) :
  Forall (fun o => forall b, o = Resolved b -> P b) outcomes ->
  forall values, omap (fun o => o) outcomes = Resolved values -> Forall P values.
Proof.
  induction 1 as [|o r Ho Hr IH]; intros values; cbn [omap].
  - intros [= <-]. constructor.
  - destruct o as [b|e]; cbn [obind]; [|discriminate].
    destruct (omap (fun o => o) r) as [rest|e]; cbn [obind]; [|discriminate].
    intros [= <-]. constructor; auto.
Qed.

Lemma getTagDates_bodies (gren : Gren) (tags : list TagInfo) (w w' : World)
  (releaseDates : list DatedPoint) :
  getTagDates gren tags w = (Resolved releaseDates, w') ->
  Forall (fun point => point_body point = None) releaseDates.
Proof.
  unfold getTagDates, all_map.
  destruct (start_map _ tags w) as [[outcomes|e] w1] eqn:Es; cbn [obind]; [|discriminate].
  intros [= Hvalues _].
  eapply omap_settled_Forall; [|exact Hvalues].
  eapply start_map_Forall; [|exact Es].
  intros tag p w0 point w0' [= <-]. unfold then_, call, resolve.
  destruct (api_getCommit _ _); [|discriminate].
  now intros [= <- _].
Qed.

(** No endpoint of a range built from the tag dates has a body: in the
    pipeline [getIssueBlocks] always runs the grouping. *)
Lemma createReleaseRanges_bodies (gren : Gren) (releaseDates : list DatedPoint) :
  Forall (fun point => point_body point = None) releaseDates ->
  Forall (Forall (fun point => point_body point = None))
         (createReleaseRanges gren releaseDates).
Proof.
  intros Hnone. unfold createReleaseRanges.
  set (sorted := sortReleasesByDate releaseDates).
  assert (Hsorted : Forall (fun point => point_body point = None) sorted).
  { eapply Permutation_Forall; [apply sortReleasesByDate_perm | exact Hnone]. }
  set (points := if (length sorted =? 1)%nat then sorted ++ [dateZero_point] else sorted).
  assert (Hpoints : Forall (fun point => point_body point = None) points).
  { subst points. destruct (length sorted =? 1)%nat; [|assumption].
    apply Forall_app. split; [assumption|]. now repeat constructor. }
  apply Forall_map, Forall_forall. intros i _.
  unfold JS.slice. now apply Forall_take, Forall_drop.
Qed.

(** * Further properties of the pipeline *)

(** ** Ranges *)

Lemma windows_In {A} (l : list A) (range : list A) :
  In range (windows l) -> exists a b, range = [a; b] /\ In a l /\ In b l.
Proof.
  induction l as [|x r IH]; [contradiction|].
  destruct r as [|y r']; [contradiction|].
  cbn [windows]. intros [<- | Hin].
  - exists x, y. cbn. auto.
  - destruct (IH Hin) as (a & b & -> & Ha & Hb). exists a, b. cbn in *. auto.
Qed.

Lemma sorted_single (points : list DatedPoint) :
  length (sortReleasesByDate points) = 1%nat ->
  exists p, points = [p] /\ sortReleasesByDate points = [p].
Proof.
  intros Hlen. unfold sortReleasesByDate in *. rewrite sort_length in Hlen.
  destruct points as [|p [|q r]]; try discriminate. now exists p.
Qed.

(** X1.  Every range that the range builder returns has exactly two
    endpoints, and its newer endpoint is one of the given points: the
    synthetic point of date zero is never the newer endpoint of a range, and
    it is the older endpoint only when a single point was given. *)
Theorem createReleaseRanges_endpoints (gren : Gren) (points : list DatedPoint) :
  Forall (fun range =>
            exists newer older,
              range = [newer; older]
              /\ In newer points
              /\ (In older points \/ (older = dateZero_point /\ length points = 1%nat)))
         (createReleaseRanges gren points).
Proof.
  apply List.Forall_forall. intros range Hrange.
  unfold createReleaseRanges in Hrange. rewrite slices_windows in Hrange.
  destruct (length (sortReleasesByDate points) =? 1)%nat eqn:E.
  - apply Nat.eqb_eq, sorted_single in E as (p & -> & Hs). rewrite Hs in Hrange.
    cbn in Hrange. destruct Hrange as [<- | []].
    exists p, dateZero_point. cbn. auto.
  - apply windows_In in Hrange as (a & b & -> & Ha & Hb).
    exists a, b. split; [reflexivity|].
    split; [|left];
      eapply Permutation_in; try eassumption;
      symmetry; apply sortReleasesByDate_perm.
Qed.

Lemma newest_first_unique (l l' : list DatedPoint) :
  newest_first l -> newest_first l' ->
  Permutation l l' ->
  List.NoDup (map point_date l) ->
  l = l'.
Proof.
  unfold newest_first. intros Hl Hl'.
  apply Sorted_StronglySorted in Hl; [|intros x y z; lia].
  apply Sorted_StronglySorted in Hl'; [|intros x y z; lia].
  revert l' Hl'. induction Hl as [|a r Hr IH Ha]; intros l' Hl' Hperm Hnd.
  - now apply Permutation_nil in Hperm.
  - destruct Hl' as [|a' r' Hr' Ha'].
    + apply Permutation_sym, Permutation_nil in Hperm. discriminate.
    + assert (Heq : a = a').
      { assert (Hin : In a (a' :: r')) by (eapply Permutation_in; [exact Hperm | now left]).
        assert (Hin' : In a' (a :: r))
          by (eapply Permutation_in; [symmetry; exact Hperm | now left]).
        destruct Hin as [-> | Hin]; [reflexivity|].
        destruct Hin' as [-> | Hin']; [reflexivity|].
        rewrite List.Forall_forall in Ha, Ha'.
        specialize (Ha _ Hin'). specialize (Ha' _ Hin).
        assert (Hdate : point_date a = point_date a') by lia.
        cbn [map] in Hnd. apply List.NoDup_cons_iff in Hnd as [Hfresh _].
        exfalso. apply Hfresh. rewrite Hdate. now apply in_map. }
      subst a'. f_equal. apply IH; [assumption | |].
      * now apply Permutation_cons_inv in Hperm.
      * cbn [map] in Hnd. now apply List.NoDup_cons_iff in Hnd.
Qed.

(** X2.  When the dates of the points are pairwise distinct, the ranges do
    not depend on the order in which the points are given. *)
Theorem createReleaseRanges_order_independent (gren : Gren)
  (points points' : list DatedPoint) :
  Permutation points points' ->
  List.NoDup (map point_date points) ->
  createReleaseRanges gren points = createReleaseRanges gren points'.
Proof.
  intros Hperm Hnd.
  assert (Hsorted : sortReleasesByDate points = sortReleasesByDate points').
  { apply newest_first_unique; try apply sortReleasesByDate_newest_first.
    - rewrite <- (sortReleasesByDate_perm points), <- (sortReleasesByDate_perm points').
      exact Hperm.
    - eapply Permutation_NoDup; [|exact Hnd].
      apply Permutation_map, sortReleasesByDate_perm. }
  unfold createReleaseRanges. now rewrite Hsorted.
Qed.

Lemma createReleaseRanges_order_independent_witness :
  let a := Sample.point None "v1" 10 in
  let b := Sample.point (Some 7) "v3" 30 in
  let c := Sample.point None "v2" 20 in
  Permutation [a; b; c] [c; a; b]
  /\ List.NoDup (map point_date [a; b; c])
  /\ createReleaseRanges Sample.gren [a; b; c] = createReleaseRanges Sample.gren [c; a; b]
  /\ createReleaseRanges Sample.gren [c; a; b] = [[b; c]; [c; a]].
Proof.
  intros a b c.
  assert (Hperm : Permutation [a; b; c] [c; a; b]).
  { apply Permutation_sym. change [c; a; b] with ([c] ++ [a; b]).
    change [a; b; c] with ([a; b] ++ [c]). apply Permutation_app_comm. }
  assert (Hnd : List.NoDup (map point_date [a; b; c])).
  { repeat constructor; cbn; intuition discriminate. }
  split; [exact Hperm|]. split; [exact Hnd|]. split.
  - exact (createReleaseRanges_order_independent Sample.gren _ _ Hperm Hnd).
  - reflexivity.
Defined.

(** ** Tags *)

(** Unless exactly one name is selected, the callback never extends the
    selection: the filter keeps the tags whose name is selected. *)
Lemma getSelectedTags_filter_plain (tags rest : list Tag) (index : nat)
  (selectedTags : list string) :
  length selectedTags <> 1%nat ->
  getSelectedTags_filter tags index rest selectedTags
  = List.filter (fun tag => JS.includes (tag_name tag) selectedTags) rest.
Proof.
  intros Hlen. apply Nat.eqb_neq in Hlen.
  revert index. induction rest as [|tag rest IH]; intros index; [reflexivity|].
  cbn [getSelectedTags_filter List.filter]. rewrite Hlen, andb_false_r, IH.
  now destruct (JS.includes (tag_name tag) selectedTags).
Qed.

(** As long as no tag bears a selected name, nothing is selected. *)
Lemma getSelectedTags_filter_none (tags rest : list Tag) (index : nat)
  (selectedTags : list string) :
  Forall (fun tag => JS.includes (tag_name tag) selectedTags = false) rest ->
  getSelectedTags_filter tags index rest selectedTags = [].
Proof.
  revert index. induction rest as [|tag rest IH]; intros index Hnone; [reflexivity|].
  inversion Hnone as [|? ? Htag Hrest]; subst.
  cbn [getSelectedTags_filter]. rewrite Htag. cbn [andb app]. now apply IH.
Qed.

(** X3.  A request of two or more names, none of them 'all', selects the
    first two tags of the tag list whose name is requested, in the order of
    the tag list; no successor is added. *)
Theorem getSelectedTags_several (optionTags : list string) (tags : list Tag) :
  JS.includes "all" optionTags = false ->
  (2 <= length optionTags)%nat ->
  getSelectedTags optionTags tags
  = Selected (firstn 2 (List.filter (fun tag => JS.includes (tag_name tag) optionTags) tags)).
Proof.
  intros Hall Hlen. unfold getSelectedTags. rewrite Hall.
  destruct (length optionTags =? 0)%nat eqn:E; [apply Nat.eqb_eq in E; lia|].
  rewrite getSelectedTags_filter_plain by lia. reflexivity.
Qed.

Lemma getSelectedTags_several_witness :
  let tags := [ {| tag_name := "v4"; tag_sha := "c4" |};
                {| tag_name := "v3"; tag_sha := "c3" |};
                {| tag_name := "v2"; tag_sha := "c2" |};
                {| tag_name := "v1"; tag_sha := "c1" |} ] in
  JS.includes "all" ["v1"; "v3"] = false
  /\ (2 <= length ["v1"; "v3"])%nat
  /\ getSelectedTags ["v1"; "v3"] tags
     = Selected [ {| tag_name := "v3"; tag_sha := "c3" |};
                  {| tag_name := "v1"; tag_sha := "c1" |} ].
Proof.
  intros tags. split; [reflexivity|]. split; [simpl; lia|].
  rewrite (getSelectedTags_several ["v1"; "v3"] tags eq_refl); [reflexivity | simpl; lia].
Defined.

(** X4.  When names are requested, 'all' is not among them and no tag bears
    any of them, the selector returns the empty array, not [false]: the
    caller does not fall back on the two latest tags. *)
Theorem getSelectedTags_unknown_names (optionTags : list string) (tags : list Tag) :
  JS.includes "all" optionTags = false ->
  optionTags <> [] ->
  (forall tag, In tag tags -> ~ In (tag_name tag) optionTags) ->
  getSelectedTags optionTags tags = Selected [].
Proof.
  intros Hall Hne Hnone. unfold getSelectedTags. rewrite Hall.
  destruct optionTags as [|t others]; [contradiction|]. cbn [length Nat.eqb].
  rewrite getSelectedTags_filter_none; [reflexivity|].
  apply List.Forall_forall. intros tag Htag. apply includes_false. now apply Hnone.
Qed.

Lemma getSelectedTags_unknown_names_witness :
  let tags := [ {| tag_name := "v2"; tag_sha := "c2" |};
                {| tag_name := "v1"; tag_sha := "c1" |} ] in
  JS.includes "all" ["v9"] = false
  /\ ["v9"] <> []
  /\ (forall tag, In tag tags -> ~ In (tag_name tag) ["v9"])
  /\ getSelectedTags ["v9"] tags = Selected [].
Proof.
  intros tags.
  assert (Hnone : forall tag, In tag tags -> ~ In (tag_name tag) ["v9"]).
  { intros tag [<- | [<- | []]]; cbn; intuition discriminate. }
  split; [reflexivity|]. split; [discriminate|]. split; [exact Hnone|].
  apply getSelectedTags_unknown_names; [reflexivity | discriminate | exact Hnone].
Defined.

(** ** The stages, as equations on worlds *)

Lemma getListReleases_eq (gren : Gren) (w : World) :
  getListReleases gren w
  = match api_listReleases (repo gren) with
    | Resolved releases =>
        (Resolved releases,
         printed (JS.of_nat (length releases) +:+ " releases found" +:+ JS.nl)
                 (called ListReleases w))
    | Rejected e => (Rejected e, called ListReleases w)
    end.
Proof.
  unfold getListReleases, then_, call, print, resolve, called, printed.
  now destruct (api_listReleases (repo gren)).
Qed.

Lemma compact_first_two {A} (l : list A) :
  JS.compact [l !! 0%nat; l !! 1%nat] = firstn 2 l.
Proof. now destruct l as [|a [|b r]]. Qed.

(** The tags that [getLastTags] goes on with, and the release id it pairs
    with a tag. *)
Lemma getLastTags_eq (gren : Gren) (releases : list Release) (w : World) :
  getLastTags gren releases w
  = match api_listTags (repo gren) with
    | Resolved tags =>
        let chosen :=
          match getSelectedTags (opt_tags (options gren)) tags with
          | Selected l => l
          | NoSelection => firstn 2 tags
          end in
        let infos :=
          map (fun tag =>
                 {| ti_tag := tag;
                    ti_releaseId :=
                      option_map release_id
                        (head (List.filter
                                 (fun release =>
                                    (release_tag_name release =? tag_name tag)%string)
                                 releases)) |})
              chosen in
        (Resolved infos,
         printed ("Tags found: "
                  +:+ JS.join ", " (map (fun t => tag_name (ti_tag t)) infos))
                 (called ListTags w))
    | Rejected e => (Rejected e, called ListTags w)
    end.
Proof.
  unfold getLastTags, then_, call, print, resolve, called, printed.
  destruct (api_listTags (repo gren)) as [tags|e]; [|reflexivity].
  cbv zeta. rewrite compact_first_two. reflexivity.
Qed.

(** X5.  When no tag is requested, [getLastTags] goes on with the first two
    tags of the list that the client answers: both of them, the only one, or
    none when the repository has no tag. *)
Theorem getLastTags_default (gren : Gren) (releases : list Release) (tags : list Tag)
  (w : World) :
  opt_tags (options gren) = [] ->
  api_listTags (repo gren) = Resolved tags ->
  exists infos,
    fst (getLastTags gren releases w) = Resolved infos
    /\ map ti_tag infos = firstn 2 tags
    /\ calls (snd (getLastTags gren releases w)) = calls w ++ [ListTags].
Proof.
  intros Hnone Htags. rewrite getLastTags_eq, Htags, Hnone. cbn [getSelectedTags JS.includes existsb length Nat.eqb].
  eexists. split; [reflexivity|]. split; [|reflexivity].
  rewrite map_map. cbn [ti_tag]. apply map_id.
Qed.

Lemma getLastTags_default_witness :
  let gren := Sample.gren_on Sample.api3 (Sample.opts_tags [] "commits") in
  opt_tags (options gren) = []
  /\ api_listTags (repo gren) = Resolved Sample.tags3
  /\ fst (getLastTags gren [Sample.v2; Sample.v1] Sample.world)
     = Resolved [ {| ti_tag := {| tag_name := "v3.0.0"; tag_sha := "c3" |};
                     ti_releaseId := None |};
                  {| ti_tag := {| tag_name := "v2.0.0"; tag_sha := "c2" |};
                     ti_releaseId := Some 8 |} ].
Proof.
  intros gren. split; [reflexivity|]. split; [reflexivity|].
  destruct (getLastTags_default gren [Sample.v2; Sample.v1] Sample.tags3 Sample.world
              eq_refl eq_refl) as (infos & Hinfos & _ & _).
  rewrite Hinfos. vm_compute in Hinfos. now injection Hinfos as <-.
Defined.

Lemma head_filter {A} (p : A -> bool) (l : list A) :
  match head (List.filter p l) with
  | Some x =>
      exists before after,
        l = before ++ x :: after /\ p x = true /\ Forall (fun y => p y = false) before
  | None => Forall (fun y => p y = false) l
  end.
Proof.
  induction l as [|a r IH]; [constructor|].
  cbn [List.filter]. destruct (p a) eqn:E.
  - cbn [head]. exists [], r. auto.
  - destruct (head (List.filter p r)) as [x|].
    + destruct IH as (before & after & -> & Hx & Hbefore).
      exists (a :: before), after. auto.
    + now constructor.
Qed.

(** X6.  [getLastTags] pairs every tag it keeps with the id of the first
    listed release whose tag name is the name of the tag, and with [null]
    when no listed release has that tag name. *)
Theorem getLastTags_release_ids (gren : Gren) (releases : list Release) (w : World)
  (infos : list TagInfo) :
  fst (getLastTags gren releases w) = Resolved infos ->
  Forall (fun info =>
            match ti_releaseId info with
            | Some id =>
                exists before release after,
                  releases = before ++ release :: after
                  /\ release_tag_name release = tag_name (ti_tag info)
                  /\ release_id release = id
                  /\ Forall (fun r => release_tag_name r <> tag_name (ti_tag info)) before
            | None =>
                Forall (fun r => release_tag_name r <> tag_name (ti_tag info)) releases
            end)
         infos.
Proof.
  rewrite getLastTags_eq.
  destruct (api_listTags (repo gren)) as [tags|e]; [|discriminate].
  cbv zeta. cbn [fst]. intros [= <-].
  apply List.Forall_map, List.Forall_forall. intros tag _. cbn [ti_tag ti_releaseId].
  pose proof (head_filter
                (fun release => (release_tag_name release =? tag_name tag)%string)
                releases) as H.
  destruct (head _) as [release|]; cbn [option_map].
  - destruct H as (before & after & Hsplit & Hname & Hbefore).
    exists before, release, after. apply String.eqb_eq in Hname.
    repeat split; try assumption.
    eapply List.Forall_impl; [|exact Hbefore]. intros r Hr. now apply String.eqb_neq.
  - eapply List.Forall_impl; [|exact H]. intros r Hr. now apply String.eqb_neq.
Qed.

Lemma getLastTags_release_ids_witness :
  let gren := Sample.gren_on Sample.api3 (Sample.opts_tags ["v3.0.0"] "commits") in
  let infos := [ {| ti_tag := {| tag_name := "v3.0.0"; tag_sha := "c3" |};
                    ti_releaseId := None |};
                 {| ti_tag := {| tag_name := "v2.0.0"; tag_sha := "c2" |};
                    ti_releaseId := Some 8 |} ] in
  fst (getLastTags gren [Sample.v2; Sample.v1] Sample.world) = Resolved infos
  /\ Forall (fun info =>
               match ti_releaseId info with
               | Some id =>
                   exists before release after,
                     [Sample.v2; Sample.v1] = before ++ release :: after
                     /\ release_tag_name release = tag_name (ti_tag info)
                     /\ release_id release = id
                     /\ Forall (fun r => release_tag_name r <> tag_name (ti_tag info)) before
               | None =>
                   Forall (fun r => release_tag_name r <> tag_name (ti_tag info))
                          [Sample.v2; Sample.v1]
               end)
            infos.
Proof.
  intros gren infos. split; [reflexivity|].
  apply (getLastTags_release_ids gren [Sample.v2; Sample.v1] Sample.world infos).
  reflexivity.
Defined.

(** ** Requests made for every tag and for every range *)

Lemma omap_map {E A B C} (g : A -> B) (f : B -> Outcome E C) (l : list A) :
  omap f (map g l) = omap (fun x => f (g x)) l.
Proof.
  induction l as [|x r IH]; [reflexivity|]. cbn [map omap]. now rewrite IH.
Qed.



Lemma omap_fields {E A B C} (f : A -> Outcome E B) (g : B -> C) (h : A -> C)
  (l : list A) (ys : list B) :
  (forall x y, f x = Resolved y -> g y = h x) ->
  omap f l = Resolved ys ->
  map g ys = map h l.
Proof.
  intros Hf. revert ys. induction l as [|x r IH]; intros ys; cbn [omap].
  - now intros [= <-].
  - destruct (f x) as [y|e] eqn:Ex; cbn [obind]; [|discriminate].
    destruct (omap f r) as [rest|e]; cbn [obind]; [|discriminate].
    intros [= <-]. cbn [map]. rewrite (Hf x y Ex). f_equal. now apply IH.
Qed.







(** ** Issue mode *)

Lemma getClosedIssues_eq (gren : Gren) (ranges : list (DatedPoint * DatedPoint))
  (last : DatedPoint * DatedPoint) (w : World) :
  getClosedIssues gren (map range_of (ranges ++ [last])) w
  = match api_listIssues (repo gren) (point_date (snd last)) with
    | Resolved data =>
        (Resolved (List.filter (filterIssue gren) data),
         printed (JS.of_nat (length (List.filter (filterIssue gren) data))
                  +:+ " issues found" +:+ JS.nl)
                 (called (ListIssues (point_date (snd last))) w))
    | Rejected e => (Rejected e, called (ListIssues (point_date (snd last))) w)
    end.
Proof.
  unfold getClosedIssues.
  assert (Hlast : map range_of (ranges ++ [last])
                    !! (length (map range_of (ranges ++ [last])) - 1)%nat
                  = Some (range_of last)).
  { rewrite map_app. cbn [map]. apply list_lookup_middle.
    rewrite length_app. cbn [length]. lia. }
  rewrite Hlast. cbn [range_of lookup list_lookup].
  unfold then_, call, print, resolve, called, printed.
  now destruct (api_listIssues (repo gren) (point_date (snd last))).
Qed.

(** X9.  In issue and milestone mode the issues are requested once for all
    the ranges, since the date of the older endpoint of the last range.
    Without any range nothing is requested: reading the last range fails. *)
Theorem getIssueBlocks_single_request (host : Host) (gren : Gren) (w : World) :
  getIssueBlocks host gren [] w
  = (Rejected (TypeError "Cannot read property '1' of undefined"),
     printed "Creating the body blocks from releases:" w)
  /\ (forall ranges last,
        calls (snd (getIssueBlocks host gren (map range_of (ranges ++ [last])) w))
        = calls w ++ [ListIssues (point_date (snd last))]).
Proof.
  split; [reflexivity|]. intros ranges last.
  unfold getIssueBlocks, then_ at 1 2. cbn [print].
  rewrite getClosedIssues_eq.
  destruct (api_listIssues (repo gren) (point_date (snd last))); reflexivity.
Qed.



Lemma omap_Forall {E A B} (f : A -> Outcome E B) (P : B -> Prop) (l : list A)
  (ys : list B) :
  (forall x y, f x = Resolved y -> P y) ->
  omap f l = Resolved ys ->
  Forall P ys.
Proof.
  intros Hf. revert ys. induction l as [|x r IH]; intros ys; cbn [omap].
  - intros [= <-]. constructor.
  - destruct (f x) as [y|e] eqn:Ex; cbn [obind]; [|discriminate].
    destruct (omap f r) as [rest|e]; cbn [obind]; [|discriminate].
    intros [= <-]. constructor; eauto.
Qed.

Lemma getIssueBlocks_block_fields (host : Host) (gren : Gren) (issues : list Issue)
  (e : DatedPoint * DatedPoint) (block : Block) :
  getIssueBlocks_block host gren issues (range_of e) = Resolved block ->
  block_id block = point_id (fst e)
  /\ block_release block = point_name (fst e)
  /\ block_name block = opt_prefix (options gren) +:+ JS.str (point_name (fst e))
  /\ block_published_at block = point_date (fst e)
  /\ exists text, block_body block = text +:+ JS.nl.
Proof.
  unfold getIssueBlocks_block.
  destruct (ofilter _ issues) as [filteredIssues|?]; cbn [obind]; [|discriminate].
  cbn [range_of lookup list_lookup].
  destruct (negb _ || _).
  - destruct (groupBy host gren filteredIssues) as [lines|?]; cbn [obind]; [|discriminate].
    intros [= <-]. cbn. unfold templateIssueBody. eauto 10.
  - cbn [obind]. intros [= <-]. cbn. unfold templateIssueBody. eauto 10.
Qed.

(** X11.  When issue mode succeeds, it returns one block per range, in the
    order of the ranges; each block carries the release id, the name and the
    date of the newer endpoint of its range, the configured prefix in front
    of that name, and a body that ends with a line feed. *)
Theorem getIssueBlocks_per_range (host : Host) (gren : Gren)
  (endpoints : list (DatedPoint * DatedPoint)) (w : World) (blocks : list Block) :
  fst (getIssueBlocks host gren (map range_of endpoints) w) = Resolved blocks ->
  length blocks = length endpoints
  /\ map block_id blocks = map (fun e => point_id (fst e)) endpoints
  /\ map block_release blocks = map (fun e => point_name (fst e)) endpoints
  /\ map block_name blocks
     = map (fun e => opt_prefix (options gren) +:+ JS.str (point_name (fst e))) endpoints
  /\ map block_published_at blocks = map (fun e => point_date (fst e)) endpoints
  /\ Forall (fun block => exists text, block_body block = text +:+ JS.nl) blocks.
Proof.
  unfold getIssueBlocks, then_ at 1 2. cbn [print].
  destruct (getClosedIssues gren _ _) as [[issues|?] w1]; [|discriminate].
  unfold settle. cbn [fst]. rewrite omap_map. intros Hblocks.
  assert (Hfield : forall {C} (g : Block -> C) (h : DatedPoint * DatedPoint -> C),
             (forall e block,
                 getIssueBlocks_block host gren issues (range_of e) = Resolved block ->
                 g block = h e) ->
             map g blocks = map h endpoints).
  { intros C g h Hgh. eapply omap_fields; [|exact Hblocks]. exact Hgh. }
  split.
  { rewrite <- (length_map block_id blocks),
      (Hfield _ block_id (fun e => point_id (fst e))); [apply length_map|].
    intros e block H. now apply getIssueBlocks_block_fields in H. }
  repeat split;
    try (apply Hfield; intros e block H;
         apply getIssueBlocks_block_fields in H; tauto).
  eapply omap_Forall; [|exact Hblocks].
  intros e block H. apply getIssueBlocks_block_fields in H. tauto.
Qed.

Lemma getIssueBlocks_per_range_witness :
  let gren := Sample.gren_on Sample.api3 (Sample.opts_tags [] "milestones") in
  let p3 := Sample.point None "v3.0.0" 3000 in
  let p2 := Sample.point (Some 8) "v2.0.0" 2000 in
  let p1 := Sample.point (Some 5) "v1.0.0" 1000 in
  let blocks :=
    [ {| block_id := None; block_name := "Release v3.0.0"; block_release := Some "v3.0.0";
         block_published_at := 3000;
         block_body := "- [bug] An issue #1" +:+ JS.nl |};
      {| block_id := Some 8; block_name := "Release v2.0.0"; block_release := Some "v2.0.0";
         block_published_at := 2000;
         block_body := "-  An issue #3" +:+ JS.nl |} ] in
  fst (getIssueBlocks Sample.host gren (map range_of [(p3, p2); (p2, p1)]) Sample.world)
  = Resolved blocks
  /\ map block_id blocks = [None; Some 8].
Proof.
  intros gren p3 p2 p1 blocks.
  assert (Hrun : fst (getIssueBlocks Sample.host gren (map range_of [(p3, p2); (p2, p1)])
                        Sample.world) = Resolved blocks) by reflexivity.
  split; [exact Hrun|].
  destruct (getIssueBlocks_per_range Sample.host gren _ _ _ Hrun) as (_ & Hids & _).
  exact Hids.
Defined.

Lemma groupBy_groups_nil (gren : Gren) (mapping : list (string * list string)) :
  groupBy_groups gren mapping [] = [].
Proof.
  unfold groupBy_groups. cbv zeta.
  generalize (fold_left (fun carry group => carry ++ snd group) mapping []).
  intros L. generalize (@nil (string * list string)).
  induction mapping as [|group rest IH]; intros carry; [reflexivity|].
  cbn [fold_left List.filter map length Nat.ltb Nat.leb]. apply IH.
Qed.

Lemma groupBy_nil (host : Host) (gren : Gren) :
  opt_groupBy (options gren) <> GroupByInvalid ->
  groupBy host gren [] = Resolved [].
Proof.
  unfold groupBy. destruct (opt_groupBy (options gren)); try reflexivity.
  - congruence.
  - intros _. now rewrite groupBy_groups_nil.
Qed.

(** X12.  When no issue passes the pre-filter and the [groupBy] option is
    valid, issue mode succeeds with one block per range whose body is the
    body already carried by the newer endpoint, if it has a non-empty one,
    and the sentence "*No changelog for this release.*" otherwise, followed
    by a line feed. *)
Theorem getIssueBlocks_nothing_to_report (host : Host) (gren : Gren)
  (ranges : list (DatedPoint * DatedPoint)) (last : DatedPoint * DatedPoint)
  (data : list Issue) (w : World) :
  api_listIssues (repo gren) (point_date (snd last)) = Resolved data ->
  List.filter (filterIssue gren) data = [] ->
  opt_groupBy (options gren) <> GroupByInvalid ->
  fst (getIssueBlocks host gren (map range_of (ranges ++ [last])) w)
  = Resolved
      (map (fun e =>
              {| block_id := point_id (fst e);
                 block_release := point_name (fst e);
                 block_name := opt_prefix (options gren) +:+ JS.str (point_name (fst e));
                 block_published_at := point_date (fst e);
                 block_body :=
                   (if JS.truthy_opt (point_body (fst e))
                    then JS.str (point_body (fst e))
                    else "*No changelog for this release.*") +:+ JS.nl |})
           (ranges ++ [last])).
Proof.
  intros Hdata Hnone Hvalid.
  unfold getIssueBlocks, then_ at 1 2. cbn [print].
  rewrite getClosedIssues_eq, Hdata, Hnone. unfold settle. cbn [fst].
  rewrite omap_map.
  induction (ranges ++ [last]) as [|e rest IH]; [reflexivity|].
  cbn [omap map]. rewrite IH. clear IH.
  unfold getIssueBlocks_block. cbn [ofilter obind range_of lookup list_lookup].
  destruct (negb _ || _); cbn [obind]; [rewrite (groupBy_nil host gren Hvalid)|];
    reflexivity.
Qed.

Lemma getIssueBlocks_nothing_to_report_witness :
  let p1 := Sample.point (Some 5) "v1.0.0" 1000 in
  api_listIssues (repo Sample.gren) (point_date dateZero_point) = Resolved []
  /\ List.filter (filterIssue Sample.gren) [] = []
  /\ opt_groupBy (options Sample.gren) <> GroupByInvalid
  /\ fst (getIssueBlocks Sample.host Sample.gren [[p1; dateZero_point]] Sample.world)
     = Resolved [ {| block_id := Some 5; block_release := Some "v1.0.0";
                     block_name := "v1.0.0"; block_published_at := 1000;
                     block_body := "*No changelog for this release.*" +:+ JS.nl |} ].
Proof.
  intros p1. split; [reflexivity|]. split; [reflexivity|]. split; [discriminate|].
  exact (getIssueBlocks_nothing_to_report Sample.host Sample.gren []
           (p1, dateZero_point) [] Sample.world eq_refl eq_refl ltac:(discriminate)).
Defined.

(** ** Which issues are kept, and where they go *)

(** X13.  The pre-filter keeps an issue exactly when it is not a pull
    request, none of its labels is on the [ignoreIssuesWith] list, the
    [onlyMilestones] option is not set and, in milestone mode, the issue has
    a milestone. *)
Theorem filterIssue_kept (gren : Gren) (issue : Issue) :
  filterIssue gren issue = true
  <-> issue_pull_request issue = false
      /\ (forall label, In label (issue_labels issue) ->
            ~ In (label_name label) (opt_ignoreIssuesWith (options gren)))
      /\ opt_onlyMilestones (options gren) = false
      /\ (opt_dataSource (options gren) = "milestones" -> issue_milestone issue <> None).
Proof.
  unfold filterIssue.
  rewrite !andb_true_iff, negb_true_iff, negb_true_iff, orb_false_iff,
    compareIssueLabels_true, andb_false_iff, negb_false_iff, String.eqb_neq,
    bool_decide_eq_true.
  split.
  - intros [[Hpr Hlabels] [Honly Hm]]. repeat split; try assumption.
    intros Hds Hnone. destruct Hm as [Hm | [m Hm]]; congruence.
  - intros (Hpr & Hlabels & Honly & Hm). repeat split; try assumption.
    destruct (String.eqb_spec (opt_dataSource (options gren)) "milestones") as [E|E];
      [|now left].
    right. destruct (issue_milestone issue) as [m|]; [eauto|]. now elim (Hm E).
Qed.

(** X14.  A group of a custom mapping selects an issue exactly when one of
    the labels of the issue (the placeholder for an unlabelled issue, when
    one is configured) is in the label list of the group, or the list holds
    the token '...' and that label is named in no group.  So an issue with
    a label of a group and a label named nowhere is selected by that group
    and by the catch-all groups as well, and without a catch-all group the
    issues whose labels are named nowhere are selected by no group. *)
Theorem groupBy_filter_selects (gren : Gren) (allLabels : list string)
  (group : string * list string) (issue : Issue) :
  groupBy_filter gren allLabels group issue = true
  <-> exists l,
        In l (labels_of gren issue)
        /\ (In l (snd group) \/ (In "..." (snd group) /\ ~ In l allLabels)).
Proof.
  unfold groupBy_filter, labels_of. rewrite existsb_exists. split.
  - intros (label & Hlabel & H). exists (label_name label).
    split; [now apply in_map|].
    apply orb_true_iff in H as [H | H].
    + left. now apply includes_true.
    + right. apply andb_true_iff in H as [Hdots Hother].
      split; [now apply includes_true | now apply includes_false, negb_true_iff].
  - intros (l & Hl & H). apply in_map_iff in Hl as (label & <- & Hlabel).
    exists label. split; [assumption|]. apply orb_true_iff.
    destruct H as [H | [Hdots Hother]].
    + left. now apply includes_true.
    + right. apply andb_true_iff.
      split; [now apply includes_true | now apply negb_true_iff, includes_false].
Qed.

(** ** Grouping by label keeps every issue once *)






Section ForEach.

Variable host : Host.
Variable gren : Gren.




End ForEach.


(** ** What the commands write *)

(** The world in which the stages after [checkChangelogFile] run. *)
Lemma changelog_eq (host : Host) (gren : Gren) (w : World) :
  exists w0,
    files w0 = files w /\ calls w0 = calls w /\ console w0 = console w
    /\ changelog host gren w
       = if opt_generate (options gren)
         then then_ (getReleaseBlocks host gren) (changelog_write host gren) w0
         else then_ (getListReleases gren) (changelog_write host gren) w0.
Proof.
  unfold changelog, checkChangelogFile, then_ at 1 2 3.
  destruct (existsSync (changelogPath host gren) w && negb (opt_override (options gren)));
    cbn [drop_rejection resolve].
  - exists {| files := files w; calls := calls w; console := console w;
              dropped := dropped w
                         ++ [ThrownMessage
                               "Looks like there is already a changelog, to override it use --override"] |}.
    repeat split. now destruct (opt_generate (options gren)).
  - exists w. repeat split. now destruct (opt_generate (options gren)).
Qed.



(** X17.  When the request for the releases fails, the release command and
    both forms of the changelog command reject with that same failure after
    that single request; no later stage runs and no file is written. *)
Theorem listReleases_failure (host : Host) (gren : Gren) (w : World) (e : Thrown) :
  api_listReleases (repo gren) = Rejected e ->
  getReleaseBlocks host gren w = (Rejected e, called ListReleases w)
  /\ release host gren w = (Rejected e, called ListReleases w)
  /\ fst (changelog host gren w) = Rejected e
  /\ calls (snd (changelog host gren w)) = calls w ++ [ListReleases]
  /\ files (snd (changelog host gren w)) = files w.
Proof.
  intros Hfail.
  assert (Hblocks : forall w, getReleaseBlocks host gren w = (Rejected e, called ListReleases w)).
  { intros w0. unfold getReleaseBlocks, then_ at 1. now rewrite getListReleases_eq, Hfail. }
  split; [apply Hblocks|]. split.
  - unfold release, then_ at 1. now rewrite Hblocks.
  - destruct (changelog_eq host gren w) as (w0 & Hfiles & Hcalls & _ & ->).
    destruct (opt_generate (options gren)); unfold then_;
      rewrite ?Hblocks, ?getListReleases_eq, ?Hfail; cbn; rewrite ?Hfiles, ?Hcalls; auto.
Qed.

Lemma listReleases_failure_witness :
  let gren := Sample.gren_on Sample.api_down (Sample.opts_tags [] "issues") in
  api_listReleases (repo gren) = Rejected (ApiError "503")
  /\ release Sample.host gren Sample.world
     = (Rejected (ApiError "503"), called ListReleases Sample.world).
Proof.
  intros gren. split; [reflexivity|].
  exact (proj1 (proj2 (listReleases_failure Sample.host gren Sample.world _ eq_refl))).
Defined.

Lemma keeps_files_resolve {A} (a : A) : keeps_files (resolve a).
Proof. now intros w. Qed.

Lemma keeps_files_reject {A} (e : Thrown) : keeps_files (@reject A e).
Proof. now intros w. Qed.

Lemma keeps_files_settle {A} (o : Result A) : keeps_files (settle o).
Proof. now intros w. Qed.

Lemma keeps_files_print (line : string) : keeps_files (print line).
Proof. now intros w. Qed.

Lemma keeps_files_call {A} (c : ApiCall) (answer : Result A) : keeps_files (call c answer).
Proof. now intros w. Qed.



#[local] Hint Resolve keeps_files_resolve keeps_files_reject keeps_files_settle
  keeps_files_print keeps_files_call : reads.


Section Frame.

Variable host : Host.
Variable gren : Gren.



End Frame.


(** ** Two runs of the whole pipeline *)

(** X19.  When names are requested, 'all' is not among them and no tag of
    the repository bears any of them, the pipeline stops after listing the
    releases and the tags: commit mode resolves without any block, and
    issue and milestone mode reject, because there is no last range to read
    the starting date from. *)
Theorem unknown_tags_pipeline (host : Host) (gren : Gren) (w : World)
  (releases : list Release) (tags : list Tag) :
  api_listReleases (repo gren) = Resolved releases ->
  api_listTags (repo gren) = Resolved tags ->
  JS.includes "all" (opt_tags (options gren)) = false ->
  opt_tags (options gren) <> [] ->
  (forall tag, In tag tags -> ~ In (tag_name tag) (opt_tags (options gren))) ->
  calls (snd (getReleaseBlocks host gren w)) = calls w ++ [ListReleases; ListTags]
  /\ (opt_dataSource (options gren) = "commits" ->
      fst (getReleaseBlocks host gren w) = Resolved [])
  /\ (opt_dataSource (options gren) = "issues"
      \/ opt_dataSource (options gren) = "milestones" ->
      fst (getReleaseBlocks host gren w)
      = Rejected (TypeError "Cannot read property '1' of undefined")).
Proof.
  intros Hreleases Htags Hall Hne Hnone.
  assert (Hsel : getSelectedTags (opt_tags (options gren)) tags = Selected []).
  { unfold getSelectedTags. rewrite Hall.
    destruct (opt_tags (options gren)) as [|t others]; [contradiction|].
    cbn [length Nat.eqb]. rewrite getSelectedTags_filter_none; [reflexivity|].
    apply List.Forall_forall. intros tag Htag. apply includes_false. now apply Hnone. }
  assert (Hrun : getReleaseBlocks host gren w
                 = (let dataSource := opt_dataSource (options gren) in
                    if (dataSource =? "issues")%string then getIssueBlocks host gren []
                    else if (dataSource =? "commits")%string then getCommitBlocks host gren []
                    else if (dataSource =? "milestones")%string
                         then getIssueBlocks host gren []
                    else if inherited_object host dataSource
                         then reject (Unsupported
                                        "dataSource[gren.options.dataSource] found on the prototype")
                         else reject (TypeError
                                        "dataSource[gren.options.dataSource] is not a function"))
                     (printed "Tags found: "
                        (called ListTags
                           (printed (JS.of_nat (length releases) +:+ " releases found"
                                     +:+ JS.nl)
                                    (called ListReleases w))))).
  { unfold getReleaseBlocks, then_ at 1 2 3.
    rewrite getListReleases_eq, Hreleases, getLastTags_eq, Htags, Hsel. reflexivity. }
  rewrite Hrun. cbv zeta. split; [|split].
  - repeat match goal with
           | |- context [if ?c then _ else _] => destruct c
           end; cbn; now rewrite <- app_assoc.
  - intros ->. reflexivity.
  - intros [-> | ->]; reflexivity.
Qed.

Lemma unknown_tags_pipeline_witness :
  let commits := Sample.gren_on Sample.api3 (Sample.opts_tags ["v9.9.9"] "commits") in
  let issues := Sample.gren_on Sample.api3 (Sample.opts_tags ["v9.9.9"] "issues") in
  (forall tag, In tag Sample.tags3 -> ~ In (tag_name tag) ["v9.9.9"])
  /\ fst (getReleaseBlocks Sample.host commits Sample.world) = Resolved []
  /\ fst (getReleaseBlocks Sample.host issues Sample.world)
     = Rejected (TypeError "Cannot read property '1' of undefined").
Proof.
  intros commits issues.
  assert (Hnone : forall tag, In tag Sample.tags3 -> ~ In (tag_name tag) ["v9.9.9"]).
  { intros tag [<- | [<- | [<- | []]]]; cbn; intuition discriminate. }
  split; [exact Hnone|]. split.
  - destruct (unknown_tags_pipeline Sample.host commits Sample.world _ _
                eq_refl eq_refl eq_refl ltac:(discriminate) Hnone) as (_ & H & _).
    now apply H.
  - destruct (unknown_tags_pipeline Sample.host issues Sample.world _ _
                eq_refl eq_refl eq_refl ltac:(discriminate) Hnone) as (_ & _ & H).
    apply H. now left.
Defined.

(** X20.  A repository with a single tag and no requested tag, in commit
    mode: the releases and the tags are listed, the commit of the tag is
    fetched, and the commits are requested from date zero to the date of
    that commit, that is, the whole history before the tag.  When the run
    succeeds it gives exactly one block, for that tag, with the id of its
    release if there is one. *)
Theorem single_tag_pipeline (host : Host) (gren : Gren) (w : World)
  (releases : list Release) (tag : Tag) (date : Z) :
  opt_tags (options gren) = [] ->
  opt_dataSource (options gren) = "commits" ->
  api_listReleases (repo gren) = Resolved releases ->
  api_listTags (repo gren) = Resolved [tag] ->
  api_getCommit (repo gren) (tag_sha tag) = Resolved date ->
  calls (snd (getReleaseBlocks host gren w))
  = calls w ++ [ListReleases; ListTags; GetCommit (tag_sha tag); ListCommits 0 date]
  /\ fst (getReleaseBlocks host gren w)
     = obind (api_listCommits (repo gren) 0 date)
             (fun commits =>
                obind (generateCommitsBody host gren commits)
                      (fun body =>
                         Resolved
                           [ {| block_id :=
                                  option_map release_id
                                    (head (List.filter
                                             (fun release =>
                                                (release_tag_name release =? tag_name tag)%string)
                                             releases));
                                block_name := opt_prefix (options gren) +:+ tag_name tag;
                                block_release := Some (tag_name tag);
                                block_published_at := date;
                                block_body := body +:+ JS.nl |} ])).
Proof.
  intros Hnone Hds Hreleases Htags Hdate.
  assert (Hrun : exists w',
             getReleaseBlocks host gren w
             = (obind (api_listCommits (repo gren) 0 date)
                      (fun commits =>
                         obind (generateCommitsBody host gren commits)
                               (fun body =>
                                  Resolved
                                    [ {| block_id :=
                                           option_map release_id
                                             (head (List.filter
                                                      (fun release =>
                                                         (release_tag_name release
                                                          =? tag_name tag)%string)
                                                      releases));
                                         block_name :=
                                           opt_prefix (options gren) +:+ tag_name tag;
                                         block_release := Some (tag_name tag);
                                         block_published_at := date;
                                         block_body := body +:+ JS.nl |} ])),
                w')
             /\ calls w'
                = calls w ++ [ListReleases; ListTags; GetCommit (tag_sha tag);
                              ListCommits 0 date]).
  { unfold getReleaseBlocks, then_ at 1 2 3.
    rewrite getListReleases_eq, Hreleases, getLastTags_eq, Htags, Hnone, Hds.
    cbn [getSelectedTags JS.includes existsb length Nat.eqb firstn map ti_tag].
    unfold getTagDates, all_map. cbn [start_map ti_tag ti_releaseId].
    unfold then_ at 1, call at 1. rewrite Hdate. cbn [resolve obind omap].
    cbn [String.eqb Ascii.eqb Bool.eqb].
    unfold createReleaseRanges, sortReleasesByDate.
    cbn [JS.sort JS.sort_insert length Nat.eqb app].
    cbn [seq map Nat.sub JS.slice skipn firstn length].
    unfold getCommitBlocks, then_ at 1. cbn [print].
    unfold all_map. cbn [start_map lookup list_lookup].
    unfold getCommitsBetweenTwo, then_, print, call, settle, resolve.
    cbn [dateZero_point point_date].
    destruct (api_listCommits (repo gren) 0 date) as [commits|e]; cbn.
    - destruct (generateCommitsBody host gren commits); cbn;
        eexists; (split; [reflexivity|]); cbn; now rewrite <- !app_assoc.
    - eexists; (split; [reflexivity|]); cbn; now rewrite <- !app_assoc. }
  destruct Hrun as (w' & -> & Hcalls). split; [exact Hcalls | reflexivity].
Qed.

Lemma single_tag_pipeline_witness :
  let gren := Sample.gren_with "commits" false false GroupByFalse None in
  opt_tags (options gren) = []
  /\ opt_dataSource (options gren) = "commits"
  /\ api_listTags (repo gren) = Resolved [ {| tag_name := "v1.0.0"; tag_sha := "abc" |} ]
  /\ api_getCommit (repo gren) "abc" = Resolved 1000
  /\ calls (snd (getReleaseBlocks Sample.host gren Sample.world))
     = [ListReleases; ListTags; GetCommit "abc"; ListCommits 0 1000].
Proof.
  intros gren. repeat (split; [reflexivity|]).
  exact (proj1 (single_tag_pipeline Sample.host gren Sample.world [Sample.v1]
                  {| tag_name := "v1.0.0"; tag_sha := "abc" |} 1000
                  eq_refl eq_refl eq_refl eq_refl eq_refl)).
Defined.

(** ** Milestone titles *)

Lemma append_empty (s : string) : s +:+ "" = s.
Proof.
  induction s as [|c r IH]; [reflexivity|].
  change (String c (r +:+ "") = String c r). now rewrite IH.
Qed.

Lemma replace_default_pattern (name : string) :
  JS.replace_first "{{tag_name}}" name "Release {{tag_name}}" = "Release " +:+ name.
Proof. rewrite <- (append_empty name) at 2. reflexivity. Qed.

(** X21.  In milestone mode with the default pattern 'Release {{tag_name}}'
    an issue belongs to a range exactly when the title of its milestone is
    "Release " followed by the name of the newer endpoint; the closing date
    of the issue and the dates of the range play no part.  (The name holds
    no dollar sign, which [replace] would read as a replacement pattern.) *)
Theorem filterBlockIssue_default_pattern (gren : Gren) (e : DatedPoint * DatedPoint)
  (issue : Issue) (name : string) (milestone : Milestone) :
  opt_dataSource (options gren) = "milestones" ->
  opt_milestoneMatch (options gren) = "Release {{tag_name}}" ->
  point_name (fst e) = Some name ->
  ~ In "$"%char (list_ascii_of_string name) ->
  issue_milestone issue = Some milestone ->
  filterBlockIssue gren (range_of e) issue
  = Resolved (("Release " +:+ name) =? milestone_title milestone)%string.
Proof.
  intros Hds Hmatch Hname _ Hmilestone.
  unfold filterBlockIssue, range_of. cbn [lookup list_lookup].
  rewrite Hds, String.eqb_refl, Hmilestone, Hmatch, Hname. cbn [JS.str].
  now rewrite replace_default_pattern.
Qed.

Lemma filterBlockIssue_default_pattern_witness :
  let gren := Sample.gren_with "milestones" false false GroupByFalse None in
  let e := (Sample.point None "v3.0.0" 3000, Sample.point None "v2.0.0" 2000) in
  let issue := Sample.issue 1 ["bug"] (Some "Release v3.0.0") in
  opt_dataSource (options gren) = "milestones"
  /\ opt_milestoneMatch (options gren) = "Release {{tag_name}}"
  /\ ~ In "$"%char (list_ascii_of_string "v3.0.0")
  /\ issue_closed_at issue < point_date (snd e)
  /\ filterBlockIssue gren (range_of e) issue = Resolved true.
Proof.
  intros gren e issue.
  assert (Hplain : ~ In "$"%char (list_ascii_of_string "v3.0.0")).
  { cbn. intuition discriminate. }
  split; [reflexivity|]. split; [reflexivity|]. split; [exact Hplain|].
  split; [reflexivity|].
  rewrite (filterBlockIssue_default_pattern gren e issue "v3.0.0"
             {| milestone_title := "Release v3.0.0" |} eq_refl eq_refl eq_refl Hplain eq_refl).
  reflexivity.
Defined.
